(** * acme: the agent-environment loop of [acme/environment_loop.py]

    A shallow embedding of [EnvironmentLoop.run].  The collaborators
    (environment, actor, counter, logger, wall clock) are state
    transformers that may raise; the loop is written in an exception-state
    monad over the product of their states, with a call history kept on the
    side so that the order of the calls can be stated. *)

From Stdlib Require Import ZArith Floats.
From stdpp Require Import gmap strings list fin_maps.

Local Open Scope Z_scope.

(** ** Python values and exceptions *)

(** The numbers the loop handles: rewards, counts and clock readings. *)
Inductive pyval :=
| PyNone
| PyInt (z : Z)
| PyFloat (f : float).

Inductive exn :=
| ValueError (msg : string)
| TypeError
| ZeroDivisionError
| OverflowError
| Failure (tag : string).

Definition result (R : Type) : Type := exn + R.

(** [float(z)] for a Python int: the nearest double, [OverflowError] when
    the int is too large to be one. *)
Definition float_of_int (z : Z) : result float :=
  let f := SF2Prim (binary_normalize prec emax z 0 false) in
  if PrimFloat.is_infinity f then inl OverflowError else inr f.

(** [a + b] on numbers; [None] is not a number. *)
Definition py_add (a b : pyval) : result pyval :=
  match a, b with
  | PyInt x, PyInt y => inr (PyInt (x + y))
  | PyInt x, PyFloat g =>
      match float_of_int x with
      | inl e => inl e
      | inr f => inr (PyFloat (PrimFloat.add f g))
      end
  | PyFloat f, PyInt y =>
      match float_of_int y with
      | inl e => inl e
      | inr g => inr (PyFloat (PrimFloat.add f g))
      end
  | PyFloat f, PyFloat g => inr (PyFloat (PrimFloat.add f g))
  | _, _ => inl TypeError
  end.

(** [n / d] for an int [n] and a float [d]: the int is converted first,
    then a zero divisor (of either sign) raises. *)
Definition py_truediv (n : Z) (d : float) : result float :=
  match float_of_int n with
  | inl e => inl e
  | inr f =>
      if PrimFloat.eqb d PrimFloat.zero then inl ZeroDivisionError
      else inr (PrimFloat.div f d)
  end.

(** ** dm_env timesteps *)

Inductive StepType := FIRST | MID | LAST.

Record TimeStep (Obs : Type) := mkTimeStep {
  step_type : StepType;
  reward : pyval;
  discount : pyval;
  observation : Obs }.
Arguments mkTimeStep {Obs}.
Arguments step_type {Obs}.
Arguments reward {Obs}.
Arguments discount {Obs}.
Arguments observation {Obs}.

Definition last {Obs} (ts : TimeStep Obs) : bool :=
  match step_type ts with LAST => true | _ => false end.

(** ** The per-episode record and the arithmetic of lines 123-129 *)

(** [episode_steps / (time.time() - start_time)] *)
Definition steps_per_second (episode_steps : Z) (start_time now : float)
  : result float :=
  py_truediv episode_steps (PrimFloat.sub now start_time).

(** The dict literal of line 124. *)
Definition computed_fields (episode_steps : Z) (episode_return : pyval)
    (sps : float) : gmap string pyval :=
  <["episode_length" := PyInt episode_steps]>
    (<["episode_return" := episode_return]>
       (<["steps_per_second" := PyFloat sps]> ∅)).

(** [d.update(other)]: every key of [other] is written into [d]. *)
Definition dict_update (d other : gmap string pyval) : gmap string pyval :=
  other ∪ d.

Definition build_result (episode_steps : Z) (episode_return : pyval)
    (sps : float) (counts : gmap string pyval) : gmap string pyval :=
  dict_update (computed_fields episode_steps episode_return sps) counts.

(** The keyword arguments of [increment(episodes=1, steps=episode_steps)]. *)
Definition increment_kwargs (episode_steps : Z) : list (string * Z) :=
  [("episodes"%string, 1); ("steps"%string, episode_steps)].

(** [should_terminate] of line 90. *)
Definition should_terminate (num_episodes num_steps : option Z)
    (episode_count step_count : Z) : bool :=
  match num_episodes with
  | Some n => episode_count >=? n
  | None => false
  end
  || match num_steps with
     | Some n => step_count >=? n
     | None => false
     end.

(** ** Outcomes of a computation *)

Inductive outcome (R : Type) :=
| Done (r : R)
| Raised (e : exn)
| OutOfFuel.
Arguments Done {R}.
Arguments Raised {R}.
Arguments OutOfFuel {R}.

Section Loop.

(** Observations and actions are opaque to the loop. *)
Context {Obs Act : Type}.
(** States of the environment, actor, counter, logger and clock. *)
Context {E A C L K : Type}.

Record Environment := {
  env_reset : E -> result (TimeStep Obs) * E;
  env_step : Act -> E -> result (TimeStep Obs) * E }.

Record Actor := {
  observe_first : TimeStep Obs -> A -> result unit * A;
  select_action : Obs -> A -> result Act * A;
  observe : Act -> TimeStep Obs -> A -> result unit * A;
  update : A -> result unit * A }.

Record Counter := {
  increment : list (string * Z) -> C -> result (gmap string pyval) * C }.

Record Logger := {
  write : gmap string pyval -> L -> result unit * L }.

(** [time.time()] does not raise. *)
Record Clock := {
  time : K -> float * K }.

(** One entry of the call history: the call, its arguments and what it
    returned or raised. *)
Inductive event :=
| EvTime (t : float)
| EvReset (r : result (TimeStep Obs))
| EvObserveFirst (ts : TimeStep Obs) (r : result unit)
| EvSelectAction (o : Obs) (r : result Act)
| EvStep (a : Act) (r : result (TimeStep Obs))
| EvObserve (a : Act) (ts : TimeStep Obs) (r : result unit)
| EvUpdate (r : result unit)
| EvIncrement (kw : list (string * Z)) (r : result (gmap string pyval))
| EvWrite (rec : gmap string pyval) (r : result unit).

Record World := mkWorld {
  env_state : E;
  actor_state : A;
  counter_state : C;
  logger_state : L;
  clock_state : K;
  trace : list event }.

Definition M (R : Type) : Type := World -> outcome R * World.

Definition ret {R} (r : R) : M R := fun w => (Done r, w).

Definition raise {R} (e : exn) : M R := fun w => (Raised e, w).

Definition bind {R S} (m : M R) (k : R -> M S) : M S :=
  fun w =>
    match m w with
    | (Done r, w') => k r w'
    | (Raised e, w') => (Raised e, w')
    | (OutOfFuel, w') => (OutOfFuel, w')
    end.

Definition lift {R} (r : result R) : M R :=
  match r with inl e => raise e | inr v => ret v end.

Definition log (ev : event) (w : World) : World :=
  mkWorld (env_state w) (actor_state w) (counter_state w) (logger_state w)
          (clock_state w) (trace w ++ [ev]).

Definition set_env (s : E) (w : World) : World :=
  mkWorld s (actor_state w) (counter_state w) (logger_state w)
          (clock_state w) (trace w).
Definition set_actor (s : A) (w : World) : World :=
  mkWorld (env_state w) s (counter_state w) (logger_state w)
          (clock_state w) (trace w).
Definition set_counter (s : C) (w : World) : World :=
  mkWorld (env_state w) (actor_state w) s (logger_state w)
          (clock_state w) (trace w).
Definition set_logger (s : L) (w : World) : World :=
  mkWorld (env_state w) (actor_state w) (counter_state w) s
          (clock_state w) (trace w).
Definition set_clock (s : K) (w : World) : World :=
  mkWorld (env_state w) (actor_state w) (counter_state w) (logger_state w)
          s (trace w).

(** A call to a collaborator: run it on its own state, store the new
    state, record the call, and return or raise what it did. *)
Definition invoke {S R} (get : World -> S) (set : S -> World -> World)
    (op : S -> result R * S) (ev : result R -> event) : M R :=
  fun w =>
    let rs := op (get w) in
    let w' := log (ev (fst rs)) (set (snd rs) w) in
    match fst rs with
    | inl e => (Raised e, w')
    | inr v => (Done v, w')
    end.

Variable environment : Environment.
Variable actor : Actor.
Variable counter : Counter.
Variable logger : Logger.
Variable clock : Clock.

Definition call_time : M float :=
  fun w =>
    let tk := time clock (clock_state w) in
    (Done (fst tk), log (EvTime (fst tk)) (set_clock (snd tk) w)).

Definition call_reset : M (TimeStep Obs) :=
  invoke env_state set_env (env_reset environment) EvReset.
Definition call_step (a : Act) : M (TimeStep Obs) :=
  invoke env_state set_env (env_step environment a) (EvStep a).
Definition call_observe_first (ts : TimeStep Obs) : M unit :=
  invoke actor_state set_actor (observe_first actor ts) (EvObserveFirst ts).
Definition call_select_action (o : Obs) : M Act :=
  invoke actor_state set_actor (select_action actor o) (EvSelectAction o).
Definition call_observe (a : Act) (ts : TimeStep Obs) : M unit :=
  invoke actor_state set_actor (observe actor a ts) (EvObserve a ts).
Definition call_update : M unit :=
  invoke actor_state set_actor (update actor) EvUpdate.
Definition call_increment (kw : list (string * Z)) : M (gmap string pyval) :=
  invoke counter_state set_counter (increment counter kw) (EvIncrement kw).
Definition call_write (rec : gmap string pyval) : M unit :=
  invoke logger_state set_logger (write logger rec) (EvWrite rec).

Definition out_of_fuel {R} : M R := fun w => (OutOfFuel, w).

Notation "x <- m ;; k" := (bind m (fun x => k))
  (at level 100, m at next level, right associativity).

(** The inner [while not timestep.last()] loop, lines 106-117. *)
Fixpoint episode_loop (fuel : nat) (timestep : TimeStep Obs)
    (episode_steps : Z) (episode_return : pyval) : M (Z * pyval) :=
  if last timestep then ret (episode_steps, episode_return)
  else
    match fuel with
    | O => out_of_fuel
    | S fuel' =>
        action <- call_select_action (observation timestep);;
        timestep' <- call_step action;;
        _ <- call_observe action timestep';;
        _ <- call_update;;
        let episode_steps := episode_steps + 1 in
        episode_return <- lift (py_add episode_return (reward timestep'));;
        episode_loop fuel' timestep' episode_steps episode_return
    end.

(** The body of the outer loop, lines 96-134; it returns the updated
    [episode_count] and [step_count]. *)
Definition run_episode (fuel : nat) (episode_count step_count : Z)
  : M (Z * Z) :=
  start_time <- call_time;;
  timestep <- call_reset;;
  _ <- call_observe_first timestep;;
  final <- episode_loop fuel timestep 0 (PyInt 0);;
  let '(episode_steps, episode_return) := final in
  counts <- call_increment (increment_kwargs episode_steps);;
  now <- call_time;;
  sps <- lift (steps_per_second episode_steps start_time now);;
  let result := build_result episode_steps episode_return sps counts in
  let episode_count := episode_count + 1 in
  let step_count := step_count + episode_steps in
  _ <- call_write result;;
  ret (episode_count, step_count).

(** The outer [while not should_terminate(...)] loop, lines 94-95. *)
Fixpoint run_loop (fuel : nat) (num_episodes num_steps : option Z)
    (episode_count step_count : Z) : M (Z * Z) :=
  if should_terminate num_episodes num_steps episode_count step_count
  then ret (episode_count, step_count)
  else
    match fuel with
    | O => out_of_fuel
    | S fuel' =>
        counts <- run_episode fuel' episode_count step_count;;
        let '(episode_count, step_count) := counts in
        run_loop fuel' num_episodes num_steps episode_count step_count
    end.

Definition is_None {T} (o : option T) : bool :=
  match o with None => true | Some _ => false end.

Definition run_error_message : string :=
  let q := String (Ascii.ascii_of_nat 34) EmptyString in
  ("Either " ++ q ++ "num_episodes" ++ q ++ " or " ++ q ++ "num_steps" ++ q
     ++ " should be None.")%string.

(** [EnvironmentLoop.run], lines 63-134. *)
Definition run (fuel : nat) (num_episodes num_steps : option Z) : M unit :=
  if negb (is_None num_episodes || is_None num_steps)
  then raise (ValueError run_error_message)
  else
    _ <- run_loop fuel num_episodes num_steps 0 0;;
    ret tt.

End Loop.

Arguments Environment : clear implicits.
Arguments Actor : clear implicits.
Arguments Counter : clear implicits.
Arguments Logger : clear implicits.
Arguments Clock : clear implicits.
Arguments event : clear implicits.
Arguments World : clear implicits.

(** ** Reading a call history *)

Section History.

Context {Obs Act : Type}.

(** The four calls of one inner-loop iteration that returned normally:
    the action chosen from the current observation and the timestep the
    environment answered with. *)
Fixpoint step_events (ts : TimeStep Obs) (steps : list (Act * TimeStep Obs))
  : list (event Obs Act) :=
  match steps with
  | [] => []
  | (a, ts') :: rest =>
      EvSelectAction (observation ts) (inr a)
        :: EvStep a (inr ts')
        :: EvObserve a ts' (inr tt)
        :: EvUpdate (inr tt)
        :: step_events ts' rest
  end.

(** Every timestep the inner loop tested before the final one was not
    LAST, and the final one was. *)
Fixpoint ends_at_last (ts : TimeStep Obs) (steps : list (Act * TimeStep Obs))
  : Prop :=
  match steps with
  | [] => last ts = true
  | (_, ts') :: rest => last ts = false /\ ends_at_last ts' rest
  end.

(** The rewards summed left to right, as [+=] does, from [acc]. *)
Fixpoint sum_rewards (acc : pyval) (steps : list (Act * TimeStep Obs))
  : result pyval :=
  match steps with
  | [] => inr acc
  | (_, ts') :: rest =>
      match py_add acc (reward ts') with
      | inl e => inl e
      | inr acc' => sum_rewards acc' rest
      end
  end.

(** The records handed to [Logger.write], oldest first. *)
Fixpoint written (tr : list (event Obs Act)) : list (gmap string pyval) :=
  match tr with
  | [] => []
  | EvWrite rec _ :: tr' => rec :: written tr'
  | _ :: tr' => written tr'
  end.

(** The keyword arguments of the calls to [Counter.increment]. *)
Fixpoint increments (tr : list (event Obs Act)) : list (list (string * Z)) :=
  match tr with
  | [] => []
  | EvIncrement kw _ :: tr' => kw :: increments tr'
  | _ :: tr' => increments tr'
  end.

(** The value passed for [steps] in one call to [Counter.increment]. *)
Definition kw_steps (kw : list (string * Z)) : Z :=
  match kw with
  | [_; (_, n)] => n
  | _ => 0
  end.

(** The lengths of the episodes counted so far, and their total. *)
Definition episode_lengths (tr : list (event Obs Act)) : list Z :=
  map kw_steps (increments tr).

Definition total_steps (tr : list (event Obs Act)) : Z :=
  foldr Z.add 0 (episode_lengths tr).

(** The number of calls to [Environment.reset] and to
    [Environment.step]. *)
Fixpoint resets (tr : list (event Obs Act)) : nat :=
  match tr with
  | [] => O
  | EvReset _ :: tr' => S (resets tr')
  | _ :: tr' => resets tr'
  end.

Fixpoint step_calls (tr : list (event Obs Act)) : nat :=
  match tr with
  | [] => O
  | EvStep _ _ :: tr' => S (step_calls tr')
  | _ :: tr' => step_calls tr'
  end.

(** The exception of a call to the environment or the actor that
    raised. *)
Definition agent_raised (ev : event Obs Act) : option exn :=
  match ev with
  | EvReset (inl e) | EvStep _ (inl e) | EvObserveFirst _ (inl e)
  | EvSelectAction _ (inl e) | EvObserve _ _ (inl e) | EvUpdate (inl e) =>
      Some e
  | _ => None
  end.

(** The calls of the inner loop: no reset, no counter, no logger. *)
Definition inner_call (ev : event Obs Act) : Prop :=
  match ev with
  | EvSelectAction _ _ | EvStep _ _ | EvObserve _ _ _ | EvUpdate _ => True
  | _ => False
  end.

(** What the history of a completed episode holds. *)
Definition episode_events (t0 : float) (ts0 : TimeStep Obs)
    (steps : list (Act * TimeStep Obs)) (ret : pyval)
    (counts : gmap string pyval) (t1 sps : float) : list (event Obs Act) :=
  EvTime t0 :: EvReset (inr ts0) :: EvObserveFirst ts0 (inr tt)
    :: step_events ts0 steps
    ++ [EvIncrement (increment_kwargs (Z.of_nat (length steps)))
                    (inr counts);
        EvTime t1;
        EvWrite (build_result (Z.of_nat (length steps)) ret sps counts)
                (inr tt)].

(** A history made of completed episodes only. *)
Inductive complete_episodes : list (event Obs Act) -> Prop :=
| complete_nil : complete_episodes []
| complete_cons t0 ts0 steps ret counts t1 sps rest :
    ends_at_last ts0 steps ->
    sum_rewards (PyInt 0) steps = inr ret ->
    steps_per_second (Z.of_nat (length steps)) t0 t1 = inr sps ->
    complete_episodes rest ->
    complete_episodes
      (episode_events t0 ts0 steps ret counts t1 sps ++ rest).

(** The records the logger took: those of the calls to [Logger.write]
    that returned. *)
Fixpoint logged (tr : list (event Obs Act)) : list (gmap string pyval) :=
  match tr with
  | [] => []
  | EvWrite rec (inr _) :: tr' => rec :: logged tr'
  | _ :: tr' => logged tr'
  end.

(** The calls of an episode that completed, with the keyword arguments
    [kw] given to the counter and the record [rec] given to the logger. *)
Definition episode_calls (t0 : float) (ts0 : TimeStep Obs)
    (steps : list (Act * TimeStep Obs)) (kw : list (string * Z))
    (counts : gmap string pyval) (t1 : float) (rec : gmap string pyval)
  : list (event Obs Act) :=
  EvTime t0 :: EvReset (inr ts0) :: EvObserveFirst ts0 (inr tt)
    :: step_events ts0 steps
    ++ [EvIncrement kw (inr counts); EvTime t1; EvWrite rec (inr tt)].

(** Where the loop stands between two calls: between two episodes, after
    the first clock reading, after [reset], with a current timestep
    (after [observe_first] or [update]), after [select_action], after
    [step], after [observe], after the counter, after the second clock
    reading, or after a call that raised. *)
Inductive phase :=
| Between
| Clocked
| ResetDone (ts : TimeStep Obs)
| Current (ts : TimeStep Obs)
| Chosen (a : Act)
| Stepped (a : Act) (ts : TimeStep Obs)
| Observed (ts : TimeStep Obs)
| Counted
| Reclocked
| Stopped.

(** The call that may come next, with its arguments, and where it
    leaves the loop.  [select_action] is given the observation of the
    current timestep, which is not LAST; the counter is called when the
    current timestep is LAST; nothing follows a call that raised. *)
Inductive follows : phase -> event Obs Act -> phase -> Prop :=
| follows_time t :
    follows Between (EvTime t) Clocked
| follows_reset ts :
    follows Clocked (EvReset (inr ts)) (ResetDone ts)
| follows_reset_raised e :
    follows Clocked (EvReset (inl e)) Stopped
| follows_observe_first ts :
    follows (ResetDone ts) (EvObserveFirst ts (inr tt)) (Current ts)
| follows_observe_first_raised ts e :
    follows (ResetDone ts) (EvObserveFirst ts (inl e)) Stopped
| follows_select_action ts a :
    last ts = false ->
    follows (Current ts) (EvSelectAction (observation ts) (inr a)) (Chosen a)
| follows_select_action_raised ts e :
    last ts = false ->
    follows (Current ts) (EvSelectAction (observation ts) (inl e)) Stopped
| follows_step a ts :
    follows (Chosen a) (EvStep a (inr ts)) (Stepped a ts)
| follows_step_raised a e :
    follows (Chosen a) (EvStep a (inl e)) Stopped
| follows_observe a ts :
    follows (Stepped a ts) (EvObserve a ts (inr tt)) (Observed ts)
| follows_observe_raised a ts e :
    follows (Stepped a ts) (EvObserve a ts (inl e)) Stopped
| follows_update ts :
    follows (Observed ts) (EvUpdate (inr tt)) (Current ts)
| follows_update_raised ts e :
    follows (Observed ts) (EvUpdate (inl e)) Stopped
| follows_increment ts kw counts :
    last ts = true ->
    follows (Current ts) (EvIncrement kw (inr counts)) Counted
| follows_increment_raised ts kw e :
    last ts = true ->
    follows (Current ts) (EvIncrement kw (inl e)) Stopped
| follows_time_again t :
    follows Counted (EvTime t) Reclocked
| follows_write rec :
    follows Reclocked (EvWrite rec (inr tt)) Between
| follows_write_raised rec e :
    follows Reclocked (EvWrite rec (inl e)) Stopped.

(** A history whose calls follow one another in that order, from one
    phase to another. *)
Inductive ordered : phase -> list (event Obs Act) -> phase -> Prop :=
| ordered_nil p : ordered p [] p
| ordered_cons p ev q tr r :
    follows p ev q -> ordered q tr r -> ordered p (ev :: tr) r.

(** The calls made while the world went from [w] to [w']. *)
Definition since {E A C L K} (w w' : World Obs Act E A C L K)
  : list (event Obs Act) :=
  drop (length (trace w)) (trace w').

End History.

(** ** A counter *)

Module SpecCounter.

(** Modelled from the spec: the Counter of [acme.utils.counting], which
    is not part of the sources.  Its state maps a metric name to an
    integer total (an absent name counts as zero); [increment] adds each
    named delta to its total and returns all the totals. *)
Definition state : Type := gmap string Z.

Definition add_delta (s : state) (kv : string * Z) : state :=
  <[fst kv := default 0 (s !! fst kv) + snd kv]> s.

Definition totals (s : state) : gmap string pyval := PyInt <$> s.

(** Modelled from the spec: [Counter.increment] with named deltas, an
    atomic increment that returns the mapping of all current totals. *)
Definition increment (kw : list (string * Z)) (s : state)
  : result (gmap string pyval) * state :=
  let s' := foldl add_delta s kw in
  (inr (totals s'), s').

Definition counter : Counter state := Build_Counter increment.

(** The total of one metric. *)
Definition total (s : state) (k : string) : Z := default 0 (s !! k).

Definition fresh : state := ∅.

End SpecCounter.

(** ** Collaborators for the scenarios *)

Module Scenario.

(** An environment whose episodes have [len] steps, each rewarded [r]:
    the state counts the steps since the last reset. *)
Definition fixed_env (len : nat) (r : pyval) : Environment unit unit nat :=
  {| env_reset := fun _ => (inr (mkTimeStep FIRST PyNone PyNone tt), O);
     env_step := fun _ n =>
       (inr (mkTimeStep (if (len <=? S n)%nat then LAST else MID) r
                        (PyFloat PrimFloat.one) tt), S n) |}.

(** An environment whose [reset] already answers with a LAST timestep. *)
Definition terminal_env : Environment unit unit nat :=
  {| env_reset := fun _ => (inr (mkTimeStep LAST PyNone PyNone tt), O);
     env_step := fun _ n =>
       (inr (mkTimeStep LAST (PyInt 0) (PyFloat PrimFloat.zero) tt), S n) |}.

(** An actor that always succeeds; its state is unused. *)
Definition idle_actor : Actor unit unit nat :=
  {| observe_first := fun _ n => (inr tt, n);
     select_action := fun _ n => (inr tt, n);
     observe := fun _ _ n => (inr tt, n);
     update := fun n => (inr tt, n) |}.

(** An actor whose [select_action] raises on its second call; the state
    counts the calls made so far. *)
Definition failing_actor : Actor unit unit nat :=
  {| observe_first := fun _ n => (inr tt, n);
     select_action := fun _ n =>
       (if (n =? 1)%nat then inl (Failure "select_action") else inr tt, S n);
     observe := fun _ _ n => (inr tt, n);
     update := fun n => (inr tt, n) |}.

(** A logger that keeps what it is given. *)
Definition list_logger : Logger (list (gmap string pyval)) :=
  {| write := fun rec (l : list (gmap string pyval)) => (inr tt, l ++ [rec]) |}.

(** A clock that alternates between two readings. *)
Definition tick_clock : Clock bool :=
  {| time := fun b : bool =>
       (if b then PrimFloat.one else PrimFloat.zero, negb b) |}.

(** A clock too coarse to tell two readings apart. *)
Definition frozen_clock : Clock unit :=
  {| time := fun _ => (PrimFloat.one, tt) |}.

Definition start {K} (k : K)
  : World unit unit nat nat SpecCounter.state (list (gmap string pyval)) K :=
  mkWorld (Obs:=unit) (Act:=unit) O O SpecCounter.fresh [] k [].

(** The environment of the first scenario: LAST on the first step, with
    reward 1.0. *)
Definition one_step_env : Environment unit unit nat :=
  fixed_env 1 (PyFloat PrimFloat.one).


(** A world whose counter already has a total named like a computed
    field. *)
Definition colliding
  : World unit unit nat nat SpecCounter.state (list (gmap string pyval)) bool :=
  mkWorld (Obs:=unit) (Act:=unit) O O
          ({["episode_length"%string := 7]} : SpecCounter.state) [] false [].

(** The same with another value for that total. *)
Definition colliding_too
  : World unit unit nat nat SpecCounter.state (list (gmap string pyval)) bool :=
  mkWorld (Obs:=unit) (Act:=unit) O O
          ({["episode_length"%string := 9]} : SpecCounter.state) [] false [].

(** An environment of two-step episodes whose timesteps carry no
    reward. *)
Definition none_reward_env : Environment unit unit nat := fixed_env 2 PyNone.

(** What the scenarios read in a record. *)
Definition summary (rec : gmap string pyval)
  : option pyval * option pyval * option pyval * option pyval :=
  (rec !! "episode_length", rec !! "episode_return",
   rec !! "episodes", rec !! "steps").

End Scenario.

(** ** Tactics *)

(** Case analysis on the first call of a sequence. *)
Ltac next_call :=
  match goal with
  | H : context [match ?c with pair _ _ => _ end] |- _ =>
      destruct c as [[?|?|] ?] eqn:?
  | |- context [match ?c with pair _ _ => _ end] =>
      destruct c as [[?|?|] ?] eqn:?
  end.

Ltac invert H := inversion H; subst; clear H.

(** Inversion of one collaborator call. *)
Ltac call_inv H :=
  unfold call_time, call_reset, call_step, call_observe_first,
    call_select_action, call_observe, call_update, call_increment,
    call_write, invoke in H;
  simpl in H;
  try match type of H with
      | context [fst ?x] => destruct x as [[?|?] ?] eqn:?; simpl in H
      end;
  invert H.

(** Case analysis on the next call of the sequence in [H]. *)
Ltac next_in H :=
  match type of H with
  | (let (_, _) := ?c in _) = _ =>
      let Hc := fresh "Hc" in
      destruct c as [[?|?|] ?] eqn:Hc; call_inv Hc;
      repeat match goal with u : unit |- _ => destruct u end;
      cbv beta iota in H
  end.

(** The sequence stopped at the call just made: the history grew by
    the calls so far, the last of which raised. *)
Ltac raised_here :=
  simpl; rewrite <- ?app_assoc; simpl;
  eexists; split; [reflexivity|];
  do 3 (split; [reflexivity|]);
  split;
  [ repeat constructor
  | first [ eexists [], _; split; [reflexivity|]
          | eexists [_], _; split; [reflexivity|]
          | eexists [_; _], _; split; [reflexivity|]
          | eexists [_; _; _], _; split; [reflexivity|] ];
    simpl; congruence ].

(** Put a world written with [log] and the setters in constructor
    form, innermost first. *)
Ltac world_norm :=
  cbv [ret raise lift log set_env set_actor set_counter set_logger
       set_clock env_state actor_state counter_state logger_state
       clock_state trace fst snd].

(** The sequence stopped at the call just made: split the history into
    the calls before and the last one. *)
Ltac stopped_at :=
  simpl; rewrite <- ?app_assoc; simpl;
  first [ eexists [], _; split; [reflexivity|]
        | eexists [_], _; split; [reflexivity|]
        | eexists [_; _], _; split; [reflexivity|]
        | eexists [_; _; _], _; split; [reflexivity|]
        | eexists [_; _; _; _], _; split; [reflexivity|] ].

(** The calls listed follow one another in order. *)
Ltac in_order :=
  repeat (eapply ordered_cons; [econstructor; eassumption|]);
  try apply ordered_nil.

(** ** Properties of the loop *)

Section LoopFacts.

Context {Obs Act E A C L K : Type}.
Variable environment : Environment Obs Act E.
Variable actor : Actor Obs Act A.
Variable counter : Counter C.
Variable logger : Logger L.
Variable clock : Clock K.

Local Abbreviation world := (World Obs Act E A C L K).
Local Abbreviation episode_loop' :=
  (episode_loop (C:=C) (L:=L) (K:=K) environment actor).
Local Abbreviation run_episode' :=
  (run_episode environment actor counter logger clock).
Local Abbreviation run_loop' :=
  (run_loop environment actor counter logger clock).
Local Abbreviation run' := (run environment actor counter logger clock).

(** *** Reading a history in pieces *)

Lemma written_app (a b : list (event Obs Act)) :
  written (a ++ b) = written a ++ written b.
Proof.
  induction a as [|[] a IH]; simpl; rewrite ?IH; reflexivity.
Qed.

Lemma increments_app (a b : list (event Obs Act)) :
  increments (a ++ b) = increments a ++ increments b.
Proof.
  induction a as [|[] a IH]; simpl; rewrite ?IH; reflexivity.
Qed.

Lemma resets_app (a b : list (event Obs Act)) :
  resets (a ++ b) = (resets a + resets b)%nat.
Proof.
  induction a as [|[] a IH]; simpl; rewrite ?IH; reflexivity.
Qed.

Lemma step_calls_app (a b : list (event Obs Act)) :
  step_calls (a ++ b) = (step_calls a + step_calls b)%nat.
Proof.
  induction a as [|[] a IH]; simpl; rewrite ?IH; reflexivity.
Qed.

Lemma since_app (w w' : world) d :
  trace w' = trace w ++ d -> since w w' = d.
Proof.
  unfold since; intros ->. apply drop_app_length.
Qed.

Lemma step_events_calls (ts : TimeStep Obs)
    (steps : list (Act * TimeStep Obs)) :
  step_calls (step_events ts steps) = length steps
  /\ written (step_events ts steps) = []
  /\ increments (step_events ts steps) = []
  /\ resets (step_events ts steps) = O.
Proof.
  revert ts; induction steps as [|[a ts'] steps IH]; intros ts; simpl.
  - auto.
  - destruct (IH ts') as (-> & -> & -> & ->). auto.
Qed.

Lemma inner_calls_quiet (d : list (event Obs Act)) :
  Forall inner_call d ->
  written d = [] /\ increments d = [] /\ resets d = O.
Proof.
  induction 1 as [|[] d Hev _ IH]; simpl; try contradiction; auto.
Qed.

(** *** The inner loop *)

Lemma episode_loop_run f :
  forall ts n r (w : world) o w',
    episode_loop' f ts n r w = (o, w') ->
    exists d,
      trace w' = trace w ++ d
      /\ counter_state w' = counter_state w
      /\ logger_state w' = logger_state w
      /\ clock_state w' = clock_state w
      /\ Forall inner_call d
      /\ match o with
         | Done (n', r') =>
             exists steps,
               d = step_events ts steps
               /\ ends_at_last ts steps
               /\ n' = n + Z.of_nat (length steps)
               /\ sum_rewards r steps = inr r'
         | Raised e =>
             exists d' ev,
               d = d' ++ [ev]
               /\ forall e', agent_raised ev = Some e' -> e' = e
         | OutOfFuel => True
         end.
Proof.
  induction f as [|f IH]; intros ts n r w o w' H; simpl in H.
  - destruct (last ts) eqn:Hl; invert H.
    + exists []. rewrite app_nil_r. repeat split; auto.
      exists []. simpl. repeat split; auto. lia.
    + exists []. rewrite app_nil_r. repeat split; auto.
  - destruct (last ts) eqn:Hl.
    { invert H. exists []. rewrite app_nil_r. repeat split; auto.
      exists []. simpl. repeat split; auto. lia. }
    unfold bind in H.
    next_in H; [|invert H; raised_here].
    next_in H; [|invert H; raised_here].
    next_in H; [|invert H; raised_here].
    next_in H; [|invert H; raised_here].
    unfold lift in H.
    match goal with
    | Hs : env_step environment ?a _ = (inr ?t, _) |- _ =>
        rename a into act; rename t into ts'
    end.
    destruct (py_add r (reward ts')) as [err|r1] eqn:Hadd; simpl in H.
    { invert H. raised_here. }
    apply IH in H as (d & Ht & Hc & Hg & Hk & Hin & Ho).
    exists (EvSelectAction (observation ts) (inr act)
              :: EvStep act (inr ts')
              :: EvObserve act ts' (inr tt)
              :: EvUpdate (inr tt) :: d).
    simpl in *. rewrite <- !app_assoc in Ht. simpl in Ht.
    do 4 (split; [assumption|]).
    split; [repeat constructor; auto|].
    destruct o as [[n' r']|err|]; auto.
    + destruct Ho as (steps & -> & Hend & -> & Hsum).
      exists ((act, ts') :: steps). simpl. rewrite Hadd.
      repeat split; auto. lia.
    + destruct Ho as (d' & ev & -> & Hev).
      exists (EvSelectAction (observation ts) (inr act)
                :: EvStep act (inr ts')
                :: EvObserve act ts' (inr tt)
                :: EvUpdate (inr tt) :: d'), ev.
      split; auto.
Qed.

(** *** One episode *)

Lemma run_episode_run f ec sc (w : world) o w' :
  run_episode' f ec sc w = (o, w') ->
  exists d,
    trace w' = trace w ++ d
    /\ resets d = 1%nat
    /\ match o with
       | Done (ec', sc') =>
           exists t0 ts0 steps ret counts t1 sps,
             d = episode_events t0 ts0 steps ret counts t1 sps
             /\ ends_at_last ts0 steps
             /\ sum_rewards (PyInt 0) steps = inr ret
             /\ steps_per_second (Z.of_nat (length steps)) t0 t1 = inr sps
             /\ ec' = ec + 1
             /\ sc' = sc + Z.of_nat (length steps)
             /\ fst (env_reset environment (env_state w)) = inr ts0
             /\ increment counter
                  (increment_kwargs (Z.of_nat (length steps)))
                  (counter_state w) = (inr counts, counter_state w')
             /\ fst (time clock (clock_state w)) = t0
             /\ time clock (snd (time clock (clock_state w)))
                = (t1, clock_state w')
             /\ write logger
                  (build_result (Z.of_nat (length steps)) ret sps counts)
                  (logger_state w) = (inr tt, logger_state w')
       | Raised e =>
           exists d' ev,
             d = d' ++ [ev]
             /\ forall e', agent_raised ev = Some e' ->
                           e' = e /\ written d = []
       | OutOfFuel => True
       end.
Proof.
  unfold run_episode, bind; intros H.
  next_in H.
  next_in H; cycle 1.
  { invert H. simpl. rewrite <- !app_assoc. simpl.
    eexists; split; [reflexivity|]. split; [reflexivity|].
    eexists [_], _. split; [reflexivity|]. simpl.
    intros e' [= <-]. auto. }
  next_in H; cycle 1.
  { invert H. simpl. rewrite <- !app_assoc. simpl.
    eexists; split; [reflexivity|]. split; [reflexivity|].
    eexists [_; _], _. split; [reflexivity|]. simpl.
    intros e' [= <-]. auto. }
  match goal with
  | Hs : env_reset environment _ = (inr ?t, _) |- _ => rename t into ts0
  end.
  match type of H with
  | (let (_, _) := ?c in _) = _ => destruct c as [o4 w4] eqn:H4
  end.
  apply episode_loop_run in H4 as (d & Ht & Hc & Hg & Hk & Hin & Ho).
  simpl in Ht, Hc, Hg, Hk. rewrite <- !app_assoc in Ht. simpl in Ht.
  destruct (inner_calls_quiet _ Hin) as (Hw & Hi & Hr).
  destruct o4 as [[n' r']|err|]; cycle 1.
  { invert H. destruct Ho as (d' & ev & -> & Hev).
    eexists; split; [exact Ht|]. split; [simpl; rewrite Hr; reflexivity|].
    eexists (_ :: _ :: _ :: d'), ev. split; [reflexivity|].
    intros e' He'. split; [auto|]. simpl. exact Hw. }
  { invert H. eexists; split; [exact Ht|].
    split; [simpl; rewrite Hr; reflexivity|]. exact I. }
  destruct Ho as (steps & -> & Hend & -> & Hsum).
  rewrite Z.add_0_l in H. simpl in H.
  assert (Hq : resets (step_events (Act:=Act) ts0 steps) = O) by exact Hr.
  next_in H; cycle 1.
  { invert H. simpl. rewrite Ht, <- !app_assoc. simpl.
    eexists; split; [reflexivity|].
    split; [simpl; rewrite resets_app, Hq; reflexivity|].
    eexists (_ :: _ :: _ :: step_events ts0 steps), _.
    split; [reflexivity|]. simpl. intros e' [=]. }
  simpl in H. unfold lift in H.
  match type of H with
  | context [steps_per_second ?n ?a ?b] =>
      destruct (steps_per_second n a b) as [err|sps] eqn:Hsps
  end; simpl in H.
  { invert H. simpl. rewrite Ht, <- !app_assoc. simpl.
    eexists; split; [reflexivity|].
    split; [simpl; rewrite resets_app, Hq; reflexivity|].
    eexists (_ :: _ :: _ :: step_events ts0 steps ++ [_]), _.
    split; [simpl; rewrite <- app_assoc; reflexivity|]. simpl. intros e' [=]. }
  next_in H; cycle 1.
  { invert H. simpl. rewrite Ht, <- !app_assoc. simpl.
    eexists; split; [reflexivity|].
    split; [simpl; rewrite resets_app, Hq; reflexivity|].
    eexists (_ :: _ :: _ :: step_events ts0 steps ++ [_; _]), _.
    split; [simpl; rewrite <- app_assoc; reflexivity|]. simpl. intros e' [=]. }
  invert H. simpl. rewrite Ht, <- !app_assoc. simpl.
  eexists; split; [reflexivity|].
  split; [simpl; rewrite resets_app, Hq; reflexivity|].
  do 7 eexists. split; [reflexivity|].
  repeat split; auto.
  - rewrite <- Hc. assumption.
  - rewrite <- Hk. destruct (time clock (clock_state w4)); reflexivity.
  - rewrite <- Hg. assumption.
Qed.

Lemma episode_events_summary t0 (ts0 : TimeStep Obs)
    (steps : list (Act * TimeStep Obs)) ret counts t1 sps :
  let d := episode_events t0 ts0 steps ret counts t1 sps in
  written d = [build_result (Z.of_nat (length steps)) ret sps counts]
  /\ increments d = [increment_kwargs (Z.of_nat (length steps))]
  /\ step_calls d = length steps
  /\ resets d = 1%nat.
Proof.
  destruct (step_events_calls ts0 steps) as (Hs & Hw & Hi & Hr).
  unfold episode_events; simpl.
  rewrite written_app, increments_app, step_calls_app, resets_app.
  rewrite Hs, Hw, Hi, Hr. simpl. repeat split; auto.
Qed.

Lemma total_steps_app (a b : list (event Obs Act)) :
  total_steps (a ++ b) = total_steps a + total_steps b.
Proof.
  unfold total_steps, episode_lengths.
  rewrite increments_app, map_app, foldr_app.
  induction (map kw_steps (increments a)) as [|x l IH]; simpl; lia.
Qed.

Lemma last_app_nonempty (l1 l2 : list Z) d :
  l2 <> [] -> List.last (l1 ++ l2) d = List.last l2 d.
Proof.
  intros Hne. induction l1 as [|x l1 IH]; simpl; auto.
  destruct (l1 ++ l2) eqn:Happ; auto.
  destruct l1; simpl in Happ; congruence.
Qed.

(** *** Fuel only bounds the number of iterations *)

Lemma episode_loop_more_fuel f :
  forall k ts n r (w : world) o w',
    episode_loop' f ts n r w = (o, w') -> o <> OutOfFuel ->
    episode_loop' (f + k) ts n r w = (o, w').
Proof.
  induction f as [|f IH]; intros k ts n r w o w' H Ho; simpl in *.
  - destruct (last ts) eqn:Hl.
    + destruct k; simpl; rewrite Hl; exact H.
    + invert H. congruence.
  - destruct (last ts); auto.
    unfold bind in *.
    repeat (next_call; try congruence).
    eauto.
Qed.

Lemma run_episode_more_fuel f k ec sc (w : world) o w' :
  run_episode' f ec sc w = (o, w') -> o <> OutOfFuel ->
  run_episode' (f + k) ec sc w = (o, w').
Proof.
  unfold run_episode, bind; intros H Ho.
  destruct (call_time clock w) as [[t0| |] w1] eqn:H1; try congruence.
  destruct (call_reset environment w1) as [[ts| |] w2] eqn:H2; try congruence.
  destruct (call_observe_first actor ts w2) as [[[]| |] w3] eqn:H3;
    try congruence.
  destruct (episode_loop' f ts 0 (PyInt 0) w3) as [o4 w4] eqn:H4.
  assert (o4 <> OutOfFuel) by (destruct o4; congruence).
  rewrite (episode_loop_more_fuel f k _ _ _ _ _ _ H4) by assumption.
  exact H.
Qed.

Lemma run_loop_more_fuel f :
  forall k nE nS ec sc (w : world) o w',
    run_loop' f nE nS ec sc w = (o, w') -> o <> OutOfFuel ->
    run_loop' (f + k) nE nS ec sc w = (o, w').
Proof.
  induction f as [|f IH]; intros k nE nS ec sc w o w' H Ho; simpl in *.
  - destruct (should_terminate nE nS ec sc) eqn:Hst.
    + destruct k; simpl; rewrite Hst; exact H.
    + invert H. congruence.
  - destruct (should_terminate nE nS ec sc); auto.
    unfold bind in *.
    destruct (run_episode' f ec sc w) as [o1 w1] eqn:H1.
    assert (o1 <> OutOfFuel) by (destruct o1; congruence).
    rewrite (run_episode_more_fuel f k _ _ _ _ _ H1) by assumption.
    destruct o1 as [[ec1 sc1]|e|]; auto.
Qed.

(** *** The outer loop *)

Lemma complete_episodes_counts (d : list (event Obs Act)) :
  complete_episodes d ->
  resets d = length (written d)
  /\ length (increments d) = length (written d)
  /\ length (episode_lengths d) = length (written d).
Proof.
  induction 1 as [|t0 ts0 steps ret counts t1 sps rest _ _ _ _ IH].
  - auto.
  - destruct (episode_events_summary t0 ts0 steps ret counts t1 sps)
      as (Hw & Hi & _ & Hr).
    destruct IH as (IH1 & IH2 & IH3).
    unfold episode_lengths in *.
    rewrite resets_app, written_app, increments_app, map_app, !length_app.
    rewrite Hw, Hi, Hr, IH1, IH2, IH3. auto.
Qed.

Lemma run_loop_run f :
  forall nE nS ec sc (w : world) o w',
    run_loop' f nE nS ec sc w = (o, w') ->
    exists d,
      trace w' = trace w ++ d
      /\ match o with
         | Done (ec', sc') =>
             complete_episodes d
             /\ ec' = ec + Z.of_nat (length (written d))
             /\ sc' = sc + total_steps d
             /\ should_terminate nE nS ec' sc' = true
             /\ (d = []
                 \/ episode_lengths d <> []
                    /\ should_terminate nE nS (ec' - 1)
                         (sc' - List.last (episode_lengths d) 0) = false)
         | Raised e =>
             exists pre cur ev,
               d = pre ++ cur ++ [ev]
               /\ complete_episodes pre
               /\ resets (cur ++ [ev]) = 1%nat
               /\ forall e', agent_raised ev = Some e' ->
                             e' = e /\ written (cur ++ [ev]) = []
         | OutOfFuel => True
         end.
Proof.
  induction f as [|f IH]; intros nE nS ec sc w o w' H; simpl in H.
  - destruct (should_terminate nE nS ec sc) eqn:Hst; invert H;
      exists []; rewrite app_nil_r; split; auto.
    simpl. unfold total_steps. simpl.
    split; [constructor|]. repeat split; auto; lia.
  - destruct (should_terminate nE nS ec sc) eqn:Hst.
    { invert H. exists []. rewrite app_nil_r; split; auto.
      simpl. unfold total_steps. simpl.
      split; [constructor|]. repeat split; auto; lia. }
    unfold bind in H.
    destruct (run_episode' f ec sc w) as [o1 w1] eqn:H1.
    apply run_episode_run in H1 as (d1 & Ht1 & Hr1 & Ho1).
    destruct o1 as [[ec1 sc1]|err|]; cycle 1.
    { invert H. exists d1. split; auto.
      destruct Ho1 as (d' & ev & -> & Hev).
      exists [], d', ev. simpl. split; auto. split; [constructor|auto]. }
    { invert H. exists d1. split; auto. }
    destruct Ho1 as (t0 & ts0 & steps & ret & counts & t1 & sps
                     & -> & Hend & Hsum & Hsps & -> & -> & _).
    destruct (episode_events_summary t0 ts0 steps ret counts t1 sps)
      as (Hw1 & Hi1 & Hs1 & _).
    apply IH in H as (d2 & Ht2 & Ho2).
    exists (episode_events t0 ts0 steps ret counts t1 sps ++ d2).
    split; [rewrite Ht2, Ht1, app_assoc; reflexivity|].
    destruct o as [[ec' sc']|err|]; auto.
    + destruct Ho2 as (Hce & -> & -> & Hfin & Hlast).
      split; [constructor; assumption|].
      rewrite written_app, total_steps_app.
      rewrite Hw1, !length_app.
      assert (Hts : total_steps (episode_events t0 ts0 steps ret counts
                                                t1 sps)
                    = Z.of_nat (length steps)).
      { unfold total_steps, episode_lengths. rewrite Hi1. simpl. lia. }
      rewrite Hts. simpl length.
      split; [lia|]. split; [lia|]. split; [exact Hfin|].
      right. unfold episode_lengths in *. rewrite increments_app, map_app.
      split; [rewrite Hi1; discriminate|].
      destruct Hlast as [-> | [Hne Hprev]].
      * rewrite Hi1. simpl. unfold total_steps. simpl.
        match goal with
        | |- should_terminate _ _ ?a ?b = false =>
            replace a with ec by lia; replace b with sc by lia
        end.
        exact Hst.
      * rewrite last_app_nonempty by exact Hne.
        match goal with
        | |- should_terminate _ _ ?a ?b = false =>
            match type of Hprev with
            | should_terminate _ _ ?a' ?b' = false =>
                replace a with a' by lia; replace b with b' by lia
            end
        end.
        exact Hprev.
    + destruct Ho2 as (pre & cur & ev & -> & Hpre & Hcur & Hev).
      exists (episode_events t0 ts0 steps ret counts t1 sps ++ pre), cur, ev.
      rewrite <- app_assoc. split; [reflexivity|].
      split; [constructor; assumption|]. auto.
Qed.

Lemma complete_episodes_split (d : list (event Obs Act)) :
  complete_episodes d ->
  exists eps,
    d = concat eps
    /\ Forall (fun d1 =>
                 exists t0 ts0 steps ret counts t1 sps,
                   d1 = episode_events t0 ts0 steps ret counts t1 sps
                   /\ ends_at_last ts0 steps
                   /\ sum_rewards (PyInt 0) steps = inr ret
                   /\ steps_per_second (Z.of_nat (length steps)) t0 t1
                      = inr sps) eps.
Proof.
  induction 1 as [|t0 ts0 steps ret counts t1 sps rest H1 H2 H3 _ IH].
  - exists []. split; [reflexivity|constructor].
  - destruct IH as (eps & -> & Hall).
    exists (episode_events t0 ts0 steps ret counts t1 sps :: eps).
    split; [reflexivity|]. constructor; [|assumption].
    exists t0, ts0, steps, ret, counts, t1, sps. auto.
Qed.

Lemma run_run fuel nE nS (w : world) o w' :
  run' fuel nE nS w = (o, w') ->
  (exists n m, nE = Some n /\ nS = Some m
               /\ o = Raised (ValueError run_error_message) /\ w' = w)
  \/ ((nE = None \/ nS = None)
      /\ exists r, run_loop' fuel nE nS 0 0 w = (r, w')
                   /\ o = match r with
                          | Done _ => Done tt
                          | Raised e => Raised e
                          | OutOfFuel => OutOfFuel
                          end).
Proof.
  unfold run, bind. destruct nE as [n|], nS as [m|]; simpl; intros H.
  - left. invert H. exists n, m. repeat split; reflexivity.
  - right. split; [auto|].
    destruct (run_loop' fuel (Some n) None 0 0 w) as [[r|e|] w1];
      invert H; eauto.
  - right. split; [auto|].
    destruct (run_loop' fuel None (Some m) 0 0 w) as [[r|e|] w1];
      invert H; eauto.
  - right. split; [auto|].
    destruct (run_loop' fuel None None 0 0 w) as [[r|e|] w1];
      invert H; eauto.
Qed.

Lemma computed_fields_lookup n ret sps :
  computed_fields n ret sps !! "episode_length" = Some (PyInt n)
  /\ computed_fields n ret sps !! "episode_return" = Some ret
  /\ computed_fields n ret sps !! "steps_per_second" = Some (PyFloat sps).
Proof.
  unfold computed_fields. split; [|split].
  - apply lookup_insert_eq.
  - rewrite lookup_insert_ne by discriminate. apply lookup_insert_eq.
  - rewrite !lookup_insert_ne by discriminate. apply lookup_insert_eq.
Qed.

Lemma build_result_counts n ret sps counts k v :
  counts !! k = Some v -> build_result n ret sps counts !! k = Some v.
Proof.
  intros H. unfold build_result, dict_update.
  apply lookup_union_Some_l. exact H.
Qed.

Lemma build_result_computed n ret sps counts k :
  counts !! k = None ->
  build_result n ret sps counts !! k = computed_fields n ret sps !! k.
Proof.
  intros H. unfold build_result, dict_update.
  apply lookup_union_r. exact H.
Qed.

(** *** The precondition *)

(** C2. With both bounds given [run] raises ValueError at once: the
    world it returns is the world it was given, so no collaborator was
    called and nothing was changed. *)
Theorem run_rejects_two_bounds fuel n m (w : world) :
  run' fuel (Some n) (Some m) w = (Raised (ValueError run_error_message), w)
  /\ since w (snd (run' fuel (Some n) (Some m) w)) = [].
Proof.
  split; [reflexivity|].
  simpl. unfold since. rewrite drop_all. reflexivity.
Qed.

(** *** Counting and logging *)

(** A completed episode calls the counter once, with [episodes=1] and
    [steps] the number of steps made, and logs the totals it got. *)
Lemma run_episode_counts_once fuel ec sc (w : world) ec' sc' w' :
  run_episode' fuel ec sc w = (Done (ec', sc'), w') ->
  exists n ret sps counts,
    n = Z.of_nat (step_calls (since w w'))
    /\ increments (since w w') = [increment_kwargs n]
    /\ increment counter (increment_kwargs n) (counter_state w)
       = (inr counts, counter_state w')
    /\ written (since w w') = [build_result n ret sps counts]
    /\ ec' = ec + 1 /\ sc' = sc + n.
Proof.
  intros H. apply run_episode_run in H as (d & Ht & _ & Ho).
  destruct Ho as (t0 & ts0 & steps & ret & counts & t1 & sps
                  & -> & _ & _ & _ & -> & -> & _ & Hinc & _).
  rewrite (since_app _ _ _ Ht).
  destruct (episode_events_summary t0 ts0 steps ret counts t1 sps)
    as (Hw & Hi & Hc & _).
  exists (Z.of_nat (length steps)), ret, sps, counts.
  rewrite Hw, Hi, Hc. repeat split; auto.
Qed.

(** C7. In the record of a completed episode the totals returned by the
    counter win: a key of the totals that is also one of the three
    computed fields carries the counter's value. *)
Theorem counter_totals_take_precedence fuel ec sc (w : world) ec' sc' w' :
  run_episode' fuel ec sc w = (Done (ec', sc'), w') ->
  exists n ret sps counts rec,
    fst (increment counter (increment_kwargs n) (counter_state w))
    = inr counts
    /\ written (since w w') = [rec]
    /\ rec = dict_update (computed_fields n ret sps) counts
    /\ forall k v,
        k = "episode_length"%string \/ k = "episode_return"%string
        \/ k = "steps_per_second"%string ->
        counts !! k = Some v ->
        is_Some (computed_fields n ret sps !! k) /\ rec !! k = Some v.
Proof.
  intros H.
  apply run_episode_counts_once in H
    as (n & ret & sps & counts & _ & _ & Hinc & Hw & _).
  exists n, ret, sps, counts, (build_result n ret sps counts).
  rewrite Hinc. repeat split; auto.
  - destruct (computed_fields_lookup n ret sps) as (H1 & H2 & H3).
    destruct H as [-> | [-> | ->]]; eauto.
  - apply build_result_counts. assumption.
Qed.

Lemma float_of_int_0 : float_of_int 0 = inr PrimFloat.zero.
Proof. reflexivity. Qed.

Local Arguments build_result : simpl never.
Local Arguments steps_per_second : simpl never.

(** *** Rewards and the clock *)

Lemma py_add_None acc : py_add acc PyNone = inl TypeError.
Proof. destruct acc; reflexivity. Qed.

(** C6, as the code has it.  A mid-episode timestep whose reward is
    [None] is not taken for zero: once the actor has observed it and
    updated, adding the reward raises TypeError, which ends the inner
    loop. *)
Theorem none_reward_raises fuel ts n r (w : world) act a1 ts' e1 a2 a3 :
  last ts = false ->
  select_action actor (observation ts) (actor_state w) = (inr act, a1) ->
  env_step environment act (env_state w) = (inr ts', e1) ->
  reward ts' = PyNone ->
  observe actor act ts' a1 = (inr tt, a2) ->
  update actor a2 = (inr tt, a3) ->
  episode_loop' (S fuel) ts n r w
  = (Raised TypeError,
     mkWorld e1 a3 (counter_state w) (logger_state w) (clock_state w)
       (trace w
        ++ [EvSelectAction (observation ts) (inr act);
            EvStep act (inr ts');
            EvObserve act ts' (inr tt);
            EvUpdate (inr tt)])).
Proof.
  intros Hlast Hsel Hstep Hrew Hobs Hupd.
  simpl. rewrite Hlast.
  unfold bind, call_select_action, call_step, call_observe, call_update,
    invoke.
  simpl. rewrite Hsel. simpl. rewrite Hstep. simpl. rewrite Hobs. simpl.
  rewrite Hupd. simpl. rewrite Hrew, py_add_None.
  world_norm. rewrite <- !app_assoc. reflexivity.
Qed.

(** *** Failures *)

Lemma agent_failure_propagates fuel nE nS (w : world) e w' d ev e' :
  run' fuel nE nS w = (Raised e, w') ->
  since w w' = d ++ [ev] ->
  agent_raised ev = Some e' ->
  e = e'
  /\ exists pre cur,
      since w w' = pre ++ cur
      /\ complete_episodes pre
      /\ resets cur = 1%nat
      /\ written cur = []
      /\ length (written (since w w')) = resets pre.
Proof.
  intros H Hd Hev.
  apply run_run in H as [(n & m & _ & _ & _ & ->)|(_ & r & H & Hr)].
  { unfold since in Hd. rewrite drop_all in Hd.
    destruct d; discriminate. }
  destruct r as [[ec' sc']|e0|]; try discriminate.
  injection Hr as ->.
  apply run_loop_run in H as (d0 & Ht & pre & cur & ev0 & -> & Hpre & Hres
                              & Hfail).
  rewrite (since_app _ _ _ Ht) in Hd |- *.
  rewrite app_assoc in Hd. apply app_inj_tail in Hd as [_ ->].
  destruct (Hfail _ Hev) as [-> Hw].
  split; [reflexivity|].
  exists pre, (cur ++ [ev]).
  destruct (complete_episodes_counts _ Hpre) as (Hc & _).
  split; [reflexivity|]. split; [assumption|]. split; [assumption|].
  split; [assumption|].
  rewrite (written_app pre), Hw, app_nil_r. auto.
Qed.

(** *** Determinism *)

(** What the inner loop does depends on the environment and the actor
    only. *)
Lemma episode_loop_agree f :
  forall ts n r (w1 w2 : world) o1 w1' o2 w2',
    env_state w1 = env_state w2 ->
    actor_state w1 = actor_state w2 ->
    episode_loop' f ts n r w1 = (o1, w1') ->
    episode_loop' f ts n r w2 = (o2, w2') ->
    o1 = o2
    /\ env_state w1' = env_state w2'
    /\ actor_state w1' = actor_state w2'.
Proof.
  induction f as [|f IH]; intros ts n r w1 w2 o1 w1' o2 w2' He Ha H1 H2;
    simpl in H1, H2.
  - destruct (last ts); invert H1; invert H2; auto.
  - destruct (last ts); [invert H1; invert H2; auto|].
    unfold bind, call_select_action, call_step, call_observe, call_update,
      invoke in H1, H2.
    simpl in H1, H2. rewrite <- Ha in H2.
    destruct (select_action actor (observation ts) (actor_state w1))
      as [[e|act] a1]; simpl in H1, H2;
      [invert H1; invert H2; auto|].
    rewrite <- He in H2.
    destruct (env_step environment act (env_state w1))
      as [[e|ts'] e1]; simpl in H1, H2;
      [invert H1; invert H2; auto|].
    destruct (observe actor act ts' a1)
      as [[e|[]] a2]; simpl in H1, H2;
      [invert H1; invert H2; auto|].
    destruct (update actor a2)
      as [[e|[]] a3]; simpl in H1, H2;
      [invert H1; invert H2; auto|].
    destruct (py_add r (reward ts')) as [e|r1]; simpl in H1, H2;
      [invert H1; invert H2; auto|].
    eapply IH; [| |exact H1|exact H2]; reflexivity.
Qed.

Lemma run_episode_agree f ec1 sc1 ec2 sc2 (w1 w2 : world)
    ec1' sc1' w1' ec2' sc2' w2' :
  env_state w1 = env_state w2 ->
  actor_state w1 = actor_state w2 ->
  run_episode' f ec1 sc1 w1 = (Done (ec1', sc1'), w1') ->
  run_episode' f ec2 sc2 w2 = (Done (ec2', sc2'), w2') ->
  exists n ret sps1 sps2 c1 c2,
    written (since w1 w1') = [build_result n ret sps1 c1]
    /\ written (since w2 w2') = [build_result n ret sps2 c2]
    /\ n = Z.of_nat (step_calls (since w1 w1'))
    /\ n = Z.of_nat (step_calls (since w2 w2'))
    /\ env_state w1' = env_state w2'
    /\ actor_state w1' = actor_state w2'
    /\ increment counter (increment_kwargs n) (counter_state w1)
       = (inr c1, counter_state w1')
    /\ increment counter (increment_kwargs n) (counter_state w2)
       = (inr c2, counter_state w2').
Proof.
  intros He Ha H1 H2.
  unfold run_episode, bind in H1, H2.
  next_in H1. next_in H1; [|discriminate]. next_in H1; [|discriminate].
  next_in H2. next_in H2; [|discriminate]. next_in H2; [|discriminate].
  repeat match goal with
         | Hr : env_reset environment (env_state w2) = _ |- _ =>
             rewrite <- He in Hr
         | Hr : observe_first actor _ (actor_state w2) = _ |- _ =>
             rewrite <- Ha in Hr
         end.
  match goal with
  | Ha1 : env_reset environment (env_state w1) = (inr ?x, _),
    Ha2 : env_reset environment (env_state w1) = (inr ?y, _) |- _ =>
      rewrite Ha1 in Ha2; invert Ha2
  end.
  match goal with
  | Ha1 : env_reset environment (env_state w1) = (inr ?x, _) |- _ =>
      rename x into ts0
  end.
  match goal with
  | Ha1 : observe_first actor ts0 (actor_state w1) = _,
    Ha2 : observe_first actor ts0 (actor_state w1) = _ |- _ =>
      rewrite Ha1 in Ha2; invert Ha2
  end.
  match type of H1 with
  | (let (_, _) := ?c in _) = _ => destruct c as [o1 w13] eqn:L1
  end.
  match type of H2 with
  | (let (_, _) := ?c in _) = _ => destruct c as [o2 w23] eqn:L2
  end.
  assert (Hag : o1 = o2
                /\ env_state w13 = env_state w23
                /\ actor_state w13 = actor_state w23)
    by (eapply episode_loop_agree; [| |exact L1|exact L2]; reflexivity).
  destruct Hag as (-> & He3 & Ha3).
  apply episode_loop_run in L1 as (d1 & Ht1 & Hc1 & _ & _ & _ & Ho1).
  apply episode_loop_run in L2 as (d2 & Ht2 & Hc2 & _ & _ & _ & Ho2).
  destruct o2 as [[n' r']|err|]; try discriminate.
  destruct Ho1 as (steps1 & -> & _ & Hn1 & _).
  destruct Ho2 as (steps2 & -> & _ & Hn2 & _).
  simpl in Ht1, Ht2. rewrite <- !app_assoc in Ht1, Ht2.
  simpl in Ht1, Ht2.
  next_in H1; [|discriminate]. simpl in H1. unfold lift in H1.
  match type of H1 with
  | context [steps_per_second ?n ?x ?y] =>
      destruct (steps_per_second n x y) as [err|sps1]; simpl in H1;
      [discriminate|]
  end.
  next_in H1; [|discriminate].
  next_in H2; [|discriminate]. simpl in H2. unfold lift in H2.
  match type of H2 with
  | context [steps_per_second ?n ?x ?y] =>
      destruct (steps_per_second n x y) as [err|sps2]; simpl in H2;
      [discriminate|]
  end.
  next_in H2; [|discriminate].
  invert H1. invert H2.
  destruct (step_events_calls ts0 steps1) as (Hs1 & Hw1 & _).
  destruct (step_events_calls ts0 steps2) as (Hs2 & Hw2 & _).
  erewrite (since_app w1)
    by (simpl; rewrite Ht1, <- !app_assoc; simpl; reflexivity).
  erewrite (since_app w2)
    by (simpl; rewrite Ht2, <- !app_assoc; simpl; reflexivity).
  simpl. rewrite !written_app, !step_calls_app, Hs1, Hs2, Hw1, Hw2.
  simpl.
  do 6 eexists. split; [reflexivity|]. split; [reflexivity|].
  simpl in Hc1, Hc2. rewrite Hc1 in *. rewrite Hc2 in *.
  repeat split; auto; lia.
Qed.

(** *** Termination *)

Lemma complete_episodes_steps (d : list (event Obs Act)) :
  complete_episodes d -> total_steps d = Z.of_nat (step_calls d).
Proof.
  induction 1 as [|t0 ts0 steps ret counts t1 sps rest _ _ _ _ IH].
  - reflexivity.
  - destruct (episode_events_summary t0 ts0 steps ret counts t1 sps)
      as (_ & Hi & Hc & _).
    rewrite total_steps_app, step_calls_app, IH, Hc.
    unfold total_steps at 1, episode_lengths. rewrite Hi. simpl. lia.
Qed.

(** Without a bound the outer loop has no way out. *)
Lemma run_loop_unbounded f :
  forall ec sc (w : world) r w',
    run_loop' f None None ec sc w <> (Done r, w').
Proof.
  induction f as [|f IH]; intros ec sc w r w' H; simpl in H.
  - discriminate.
  - unfold bind in H.
    destruct (run_episode' f ec sc w) as [[[ec1 sc1]|e|] w1];
      try discriminate.
    eapply IH; eassumption.
Qed.

Lemma run_loop_terminates (Inv : world -> Prop) nE nS (mu : Z -> Z -> Z) :
  (forall ec sc, should_terminate nE nS ec sc = false -> 0 < mu ec sc) ->
  (forall (w : world) ec sc,
      Inv w ->
      exists fuel ec' sc' w',
        run_episode' fuel ec sc w = (Done (ec', sc'), w')
        /\ Inv w' /\ mu ec' sc' < mu ec sc) ->
  forall k ec sc (w : world),
    Inv w -> mu ec sc <= Z.of_nat k ->
    exists fuel r w', run_loop' fuel nE nS ec sc w = (Done r, w').
Proof.
  intros Hpos Hep.
  induction k as [|k IH]; intros ec sc w Hinv Hmu.
  - exists O. simpl.
    destruct (should_terminate nE nS ec sc) eqn:Hst; [eauto|].
    apply Hpos in Hst. lia.
  - destruct (should_terminate nE nS ec sc) eqn:Hst.
    { exists O. simpl. rewrite Hst. eauto. }
    destruct (Hep w ec sc Hinv) as (f1 & ec1 & sc1 & w1 & H1 & Hinv1 & Hlt).
    destruct (IH ec1 sc1 w1 Hinv1) as (f2 & r & w' & H2); [lia|].
    exists (S (f1 + f2)), r, w'. simpl. rewrite Hst. unfold bind.
    rewrite (run_episode_more_fuel f1 f2 _ _ _ _ _ H1) by discriminate.
    rewrite Nat.add_comm.
    apply run_loop_more_fuel; [exact H2|discriminate].
Qed.

Lemma should_terminate_episodes n ec sc :
  should_terminate (Some n) None ec sc = (ec >=? n).
Proof. unfold should_terminate. apply orb_false_r. Qed.

Lemma should_terminate_steps m ec sc :
  should_terminate None (Some m) ec sc = (sc >=? m).
Proof. reflexivity. Qed.

(** C1, as the code has it.  With exactly one bound given, episodes
    that all complete and, for a step bound, all have at least one
    step, [run] returns; the records logged are then at least
    [num_episodes], the steps counted at least [num_steps], and less
    than [num_steps] before the final episode. *)
Theorem run_terminates (Inv : world -> Prop) nE nS :
  (nE = None <-> nS <> None) ->
  (forall (w : world) ec sc,
      Inv w ->
      exists fuel ec' sc' w',
        run_episode' fuel ec sc w = (Done (ec', sc'), w')
        /\ Inv w' /\ (nS <> None -> sc < sc')) ->
  forall w : world,
    Inv w ->
    exists fuel w',
      run' fuel nE nS w = (Done tt, w')
      /\ complete_episodes (since w w')
      /\ total_steps (since w w') = Z.of_nat (step_calls (since w w'))
      /\ (forall n, nE = Some n ->
                    n <= Z.of_nat (length (written (since w w'))))
      /\ (forall m, nS = Some m ->
                    m <= total_steps (since w w')
                    /\ (since w w' = []
                        \/ total_steps (since w w')
                           - List.last (episode_lengths (since w w')) 0
                           < m)).
Proof.
  intros Hone Hep w Hinv.
  assert (Hloop : exists fuel r w',
             run_loop' fuel nE nS 0 0 w = (Done r, w')).
  { destruct nE as [n|], nS as [m|].
    - destruct Hone as [_ Hone]. discriminate Hone. discriminate.
    - apply (run_loop_terminates Inv (Some n) None (fun ec _ => n - ec))
        with (k := Z.to_nat n); [| |exact Hinv|lia].
      + intros ec sc. rewrite should_terminate_episodes. lia.
      + intros w0 ec sc Hw0.
        destruct (Hep w0 ec sc Hw0) as (f1 & ec1 & sc1 & w1 & H1 & Hi & _).
        exists f1, ec1, sc1, w1. repeat split; auto.
        apply run_episode_run in H1 as (d & _ & _ & Ho).
        destruct Ho as (t0 & ts0 & steps & ret & counts & t1 & sps
                        & _ & _ & _ & _ & -> & _).
        lia.
    - apply (run_loop_terminates Inv None (Some m) (fun _ sc => m - sc))
        with (k := Z.to_nat m); [| |exact Hinv|lia].
      + intros ec sc. rewrite should_terminate_steps. lia.
      + intros w0 ec sc Hw0.
        destruct (Hep w0 ec sc Hw0) as (f1 & ec1 & sc1 & w1 & H1 & Hi & Hlt).
        exists f1, ec1, sc1, w1. repeat split; auto.
        assert (sc < sc1) by (apply Hlt; discriminate). lia.
    - destruct Hone as [Hone _]. exfalso. apply Hone; reflexivity. }
  destruct Hloop as (fuel & [ec' sc'] & w' & Hrun).
  exists fuel, w'.
  assert (Hr : run' fuel nE nS w = (Done tt, w')).
  { unfold run, bind.
    destruct nE, nS; simpl; try (rewrite Hrun; reflexivity).
    destruct Hone as [_ Hone]. discriminate Hone. discriminate. }
  split; [exact Hr|].
  apply run_loop_run in Hrun as (d & Ht & Hce & -> & -> & Hfin & Hlast).
  rewrite (since_app _ _ _ Ht).
  split; [exact Hce|]. split; [apply complete_episodes_steps, Hce|].
  split.
  - intros n ->.
    destruct nS as [m|];
      [assert (Some n = None) by (apply Hone; discriminate); discriminate|].
    rewrite should_terminate_episodes in Hfin. lia.
  - intros m ->.
    destruct nE as [n|];
      [assert (Some n = None) by (apply Hone; discriminate); discriminate|].
    rewrite should_terminate_steps in Hfin. split; [lia|].
    destruct Hlast as [-> | [_ Hprev]]; [left; reflexivity|right].
    rewrite should_terminate_steps in Hprev. lia.
Qed.

End LoopFacts.

(** ** Stepping through a sequence of calls *)

Section Stepping.

Context {Obs Act E A C L K : Type}.

Local Abbreviation world := (World Obs Act E A C L K).
Local Abbreviation comp R :=
  (M (Obs:=Obs) (Act:=Act) (E:=E) (A:=A) (C:=C) (L:=L) (K:=K) R).

Lemma bind_Done {R S} (m : comp R) (k : R -> comp S) (w : world) r w' :
  m w = (Done r, w') -> bind m k w = k r w'.
Proof. intros H. unfold bind. rewrite H. reflexivity. Qed.

Lemma bind_Raised {R S} (m : comp R) (k : R -> comp S) (w : world) e w' :
  m w = (Raised e, w') -> bind m k w = (Raised e, w').
Proof. intros H. unfold bind. rewrite H. reflexivity. Qed.

Lemma outcome_and_world {R} (p : outcome R * world) o :
  fst p = o -> p = (o, snd p).
Proof. destruct p; simpl; intros ->; reflexivity. Qed.

End Stepping.

(** Evaluate one call on a concrete world; [tac] rewrites what
    evaluation leaves. *)
Ltac call_now tac :=
  cbn -[SpecCounter.totals SpecCounter.add_delta build_result
        steps_per_second py_add];
  tac; reflexivity.

(** The first call of the sequence returns. *)
Ltac step tac := erewrite bind_Done; [| call_now tac].

(** ** More fuel, one iteration *)

Section MoreFacts.

Context {Obs Act E A C L K : Type}.
Variable environment : Environment Obs Act E.
Variable actor : Actor Obs Act A.
Variable counter : Counter C.
Variable logger : Logger L.
Variable clock : Clock K.

Local Abbreviation world' := (World Obs Act E A C L K).


Lemma episode_loop_S f ts n r (w : world') :
  last ts = false ->
  episode_loop (C:=C) (L:=L) (K:=K) environment actor (S f) ts n r w
  = bind (call_select_action actor (observation ts))
         (fun action =>
            bind (call_step environment action)
                 (fun timestep' =>
                    bind (call_observe actor action timestep')
                         (fun _ =>
                            bind (call_update actor)
                                 (fun _ =>
                                    bind (lift (py_add r (reward timestep')))
                                         (fun r' =>
                                            episode_loop environment actor f
                                              timestep' (n + 1) r'))))) w.
Proof. intros H. simpl. rewrite H. reflexivity. Qed.

End MoreFacts.

(** ** Arithmetic of the scenarios *)

Lemma py_add_0 r : r <> PyNone -> exists v, py_add (PyInt 0) r = inr v.
Proof.
  destruct r as [|z|g]; [congruence| |]; intros _; eexists; reflexivity.
Qed.

(** What [increment(episodes=1, steps=n)] does to the counter modelled
    above. *)
Lemma increment_totals (s : SpecCounter.state) n :
  let s' := snd (SpecCounter.increment (increment_kwargs n) s) in
  fst (SpecCounter.increment (increment_kwargs n) s)
  = inr (SpecCounter.totals s')
  /\ s' !! "episodes" = Some (SpecCounter.total s "episodes" + 1)
  /\ s' !! "steps" = Some (SpecCounter.total s "steps" + n)
  /\ forall k, k <> "episodes"%string -> k <> "steps"%string ->
               s' !! k = s !! k.
Proof.
  cbv [SpecCounter.increment increment_kwargs foldl SpecCounter.add_delta
       fst snd SpecCounter.total SpecCounter.state] in *.
  split; [reflexivity|]. split; [|split].
  - rewrite lookup_insert_ne by discriminate.
    rewrite lookup_insert_eq. reflexivity.
  - rewrite lookup_insert_eq.
    rewrite lookup_insert_ne by discriminate. reflexivity.
  - intros k H1 H2. rewrite !lookup_insert_ne by congruence. reflexivity.
Qed.

Lemma totals_lookup (s : SpecCounter.state) k v :
  s !! k = Some v ->
  SpecCounter.totals s !! k = Some (PyInt (SpecCounter.total s k)).
Proof.
  unfold SpecCounter.totals, SpecCounter.total, SpecCounter.state in *.
  intros H. rewrite lookup_fmap, H. reflexivity.
Qed.

(** ** The order of the calls, whatever the outcome *)

Section Order.

Context {Obs Act E A C L K : Type}.
Variable environment : Environment Obs Act E.
Variable actor : Actor Obs Act A.
Variable counter : Counter C.
Variable logger : Logger L.
Variable clock : Clock K.

Local Abbreviation world := (World Obs Act E A C L K).
Local Abbreviation episode_loop' :=
  (episode_loop (C:=C) (L:=L) (K:=K) environment actor).
Local Abbreviation run_episode' :=
  (run_episode environment actor counter logger clock).
Local Abbreviation run_loop' :=
  (run_loop environment actor counter logger clock).
Local Abbreviation run' := (run environment actor counter logger clock).

Lemma ordered_app p (a : list (event Obs Act)) q b r :
  ordered p a q -> ordered q b r -> ordered p (a ++ b) r.
Proof.
  induction 1 as [|p ev q0 tr q Hf _ IH]; intros Hb; simpl; auto.
  econstructor; eauto.
Qed.

Lemma logged_app (a b : list (event Obs Act)) :
  logged (a ++ b) = logged a ++ logged b.
Proof.
  induction a as [|[| | | | | | | |? []] a IH]; simpl; rewrite ?IH;
    reflexivity.
Qed.

Lemma inner_calls_not_logged (d : list (event Obs Act)) :
  Forall inner_call d -> logged d = [].
Proof.
  induction 1 as [|[] d Hev _ IH]; simpl; try contradiction; auto.
Qed.

(** The calls of the inner loop follow one another in order, whether it
    returns, raises or is cut short; when it returns the current
    timestep is LAST. *)
Lemma episode_loop_ordered f :
  forall ts n r (w : world) o w',
    episode_loop' f ts n r w = (o, w') ->
    exists d p,
      trace w' = trace w ++ d
      /\ ordered (Current ts) d p
      /\ (forall x, o = Done x -> exists ts', p = Current ts' /\ last ts' = true).
Proof.
  induction f as [|f IH]; intros ts n r w o w' H; simpl in H.
  - destruct (last ts) eqn:Hl; invert H;
      exists [], (Current ts); rewrite app_nil_r;
      (split; [reflexivity|]); (split; [constructor|]);
      intros x Hx; [eauto|discriminate].
  - destruct (last ts) eqn:Hl.
    { invert H. exists [], (Current ts). rewrite app_nil_r.
      split; [reflexivity|]. split; [constructor|]. eauto. }
    unfold bind in H.
    next_in H; cycle 1.
    { invert H. simpl. eexists [_], _. split; [reflexivity|].
      split; [in_order|]. discriminate. }
    next_in H; cycle 1.
    { invert H. simpl. rewrite <- !app_assoc. simpl.
      eexists [_; _], _. split; [reflexivity|].
      split; [in_order|]. discriminate. }
    next_in H; cycle 1.
    { invert H. simpl. rewrite <- !app_assoc. simpl.
      eexists [_; _; _], _. split; [reflexivity|].
      split; [in_order|]. discriminate. }
    next_in H; cycle 1.
    { invert H. simpl. rewrite <- !app_assoc. simpl.
      eexists [_; _; _; _], _. split; [reflexivity|].
      split; [in_order|]. discriminate. }
    unfold lift in H.
    match goal with
    | Hs : env_step environment ?a _ = (inr ?t, _) |- _ =>
        rename a into act; rename t into ts'
    end.
    destruct (py_add r (reward ts')) as [err|r1] eqn:Hadd; simpl in H.
    { invert H. simpl. rewrite <- !app_assoc. simpl.
      eexists [_; _; _; _], _. split; [reflexivity|].
      split; [in_order|]. discriminate. }
    apply IH in H as (d & p & Ht & Hord & Hdone).
    simpl in Ht. rewrite <- !app_assoc in Ht. simpl in Ht.
    exists (EvSelectAction (observation ts) (inr act)
              :: EvStep act (inr ts')
              :: EvObserve act ts' (inr tt)
              :: EvUpdate (inr tt) :: d), p.
    split; [exact Ht|]. split; [|exact Hdone].
    in_order. exact Hord.
Qed.

Lemma step_events_ordered (steps : list (Act * TimeStep Obs)) :
  forall ts,
    ends_at_last ts steps ->
    exists ts',
      ordered (Current ts) (step_events ts steps) (Current ts')
      /\ last ts' = true.
Proof.
  induction steps as [|[a ts1] steps IH]; intros ts Hend; simpl in *.
  - exists ts. split; [constructor|assumption].
  - destruct Hend as [Hl Hend].
    destruct (IH _ Hend) as (ts' & Hord & Hlast).
    exists ts'. split; [|assumption]. in_order. exact Hord.
Qed.

Lemma episode_calls_ordered t0 (ts0 : TimeStep Obs)
    (steps : list (Act * TimeStep Obs)) kw counts t1 rec :
  ends_at_last ts0 steps ->
  ordered Between (episode_calls t0 ts0 steps kw counts t1 rec) Between.
Proof.
  intros Hend. destruct (step_events_ordered _ _ Hend) as (ts' & Hord & Hl).
  unfold episode_calls. in_order.
  eapply ordered_app; [exact Hord|]. in_order.
Qed.

Lemma episode_calls_summary t0 (ts0 : TimeStep Obs)
    (steps : list (Act * TimeStep Obs)) kw counts t1 rec :
  let d := episode_calls t0 ts0 steps kw counts t1 rec in
  logged d = [rec] /\ increments d = [kw] /\ step_calls d = length steps
  /\ written d = [rec] /\ resets d = 1%nat.
Proof.
  destruct (step_events_calls ts0 steps) as (Hs & Hw & Hi & Hr).
  assert (Hl : logged (step_events ts0 steps) = []).
  { clear. revert ts0. induction steps as [|[a ts'] steps IH]; intros ts0;
      simpl; auto. }
  unfold episode_calls; simpl.
  rewrite logged_app, increments_app, step_calls_app, written_app, resets_app.
  rewrite Hs, Hw, Hi, Hr, Hl. simpl. repeat split; auto.
Qed.

(** A completed episode: its calls, and what its record holds. *)
Local Abbreviation completed :=
  (fun d : list (event Obs Act) =>
     exists t0 ts0 steps ret counts t1 rec,
       d = episode_calls t0 ts0 steps
             [("episodes"%string, 1);
              ("steps"%string, Z.of_nat (length steps))]
             counts t1 rec
       /\ ends_at_last ts0 steps
       /\ step_calls d = length steps
       /\ sum_rewards (PyInt 0) steps = inr ret
       /\ (counts !! "episode_length" = None ->
           rec !! "episode_length"
           = Some (PyInt (Z.of_nat (step_calls d))))
       /\ (counts !! "episode_return" = None ->
           rec !! "episode_return" = Some ret)).

(** An episode that returns is a completed episode. *)
Lemma run_episode_completed f ec sc (w : world) ec' sc' w' :
  run_episode' f ec sc w = (Done (ec', sc'), w') ->
  exists d,
    trace w' = trace w ++ d /\ completed d
    /\ ec' = ec + 1 /\ sc' = sc + Z.of_nat (step_calls d).
Proof.
  intros H. apply run_episode_run in H as (d & Ht & _ & Ho).
  destruct Ho as (t0 & ts0 & steps & ret & counts & t1 & sps
                  & -> & Hend & Hsum & _ & -> & -> & _).
  destruct (episode_calls_summary t0 ts0 steps
              (increment_kwargs (Z.of_nat (length steps))) counts t1
              (build_result (Z.of_nat (length steps)) ret sps counts))
    as (_ & _ & Hc & _).
  destruct (computed_fields_lookup (Z.of_nat (length steps)) ret sps)
    as (H1 & H2 & _).
  eexists. split; [exact Ht|]. split; [|split; [reflexivity|]].
  - exists t0, ts0, steps, ret, counts, t1,
      (build_result (Z.of_nat (length steps)) ret sps counts).
    split; [reflexivity|]. split; [assumption|]. split; [exact Hc|].
    split; [assumption|].
    change (step_calls (episode_events t0 ts0 steps ret counts t1 sps))
      with (step_calls
              (episode_calls t0 ts0 steps
                 (increment_kwargs (Z.of_nat (length steps))) counts t1
                 (build_result (Z.of_nat (length steps)) ret sps counts))).
    rewrite Hc.
    split; intros Hn; rewrite (build_result_computed _ _ _ _ _ Hn);
      assumption.
  - change (step_calls (episode_events t0 ts0 steps ret counts t1 sps))
      with (step_calls
              (episode_calls t0 ts0 steps
                 (increment_kwargs (Z.of_nat (length steps))) counts t1
                 (build_result (Z.of_nat (length steps)) ret sps counts))).
    rewrite Hc. reflexivity.
Qed.

(** An episode that does not return made its calls in order and gave
    the logger nothing. *)
Lemma run_episode_ordered f ec sc (w : world) o w' :
  run_episode' f ec sc w = (o, w') ->
  (forall x, o <> Done x) ->
  exists d p,
    trace w' = trace w ++ d /\ ordered Between d p /\ logged d = [].
Proof.
  unfold run_episode, bind; intros H Hnd.
  next_in H.
  next_in H; cycle 1.
  { invert H. simpl. rewrite <- !app_assoc. simpl.
    eexists [_; _], _. split; [reflexivity|]. split; [in_order|reflexivity]. }
  next_in H; cycle 1.
  { invert H. simpl. rewrite <- !app_assoc. simpl.
    eexists [_; _; _], _. split; [reflexivity|].
    split; [in_order|reflexivity]. }
  match goal with
  | Hs : env_reset environment _ = (inr ?t, _) |- _ => rename t into ts0
  end.
  match type of H with
  | (let (_, _) := ?c in _) = _ => destruct c as [o4 w4] eqn:H4
  end.
  pose proof H4 as H4'.
  apply episode_loop_run in H4 as (d & Ht & Hc & Hg & Hk & Hin & _).
  apply episode_loop_ordered in H4' as (d1 & p1 & Ht1 & Hord & Hdone).
  assert (d1 = d) by (rewrite Ht1 in Ht; eapply app_inv_head, Ht).
  subst d1. clear Ht1.
  simpl in Ht. rewrite <- !app_assoc in Ht. simpl in Ht.
  pose proof (inner_calls_not_logged _ Hin) as Hlog.
  assert (Hpre : ordered Between
                   (EvTime (fst (time clock (clock_state w)))
                      :: EvReset (inr ts0)
                      :: EvObserveFirst ts0 (inr tt) :: d) p1)
    by (in_order; exact Hord).
  destruct o4 as [[n' r']|err|]; cycle 1.
  { invert H. eexists (_ :: _ :: _ :: d), p1.
    split; [exact Ht|]. split; [exact Hpre|]. simpl. exact Hlog. }
  { invert H. eexists (_ :: _ :: _ :: d), p1.
    split; [exact Ht|]. split; [exact Hpre|]. simpl. exact Hlog. }
  destruct (Hdone _ eq_refl) as (ts' & -> & Hl).
  next_in H; cycle 1.
  { invert H. simpl. rewrite Ht, <- !app_assoc. simpl.
    eexists (_ :: _ :: _ :: d ++ [_]), _.
    split; [reflexivity|]. split.
    - in_order. eapply ordered_app; [exact Hord|]. in_order.
    - simpl. rewrite logged_app, Hlog. reflexivity. }
  simpl in H. unfold lift in H.
  match type of H with
  | context [steps_per_second ?n ?a ?b] =>
      destruct (steps_per_second n a b) as [err|sps] eqn:Hsps
  end; simpl in H.
  { invert H. simpl. rewrite Ht, <- !app_assoc. simpl.
    eexists (_ :: _ :: _ :: d ++ [_; _]), _.
    split; [reflexivity|]. split.
    - in_order. eapply ordered_app; [exact Hord|]. in_order.
    - simpl. rewrite logged_app, Hlog. reflexivity. }
  next_in H; cycle 1.
  { invert H. simpl. rewrite Ht, <- !app_assoc. simpl.
    eexists (_ :: _ :: _ :: d ++ [_; _; _]), _.
    split; [reflexivity|]. split.
    - in_order. eapply ordered_app; [exact Hord|]. in_order.
    - simpl. rewrite logged_app, Hlog. reflexivity. }
  invert H. exfalso. eapply Hnd. reflexivity.
Qed.

Lemma completed_ordered (eps : list (list (event Obs Act))) :
  Forall completed eps -> ordered Between (concat eps) Between.
Proof.
  induction 1 as [|d eps Hd _ IH]; simpl; [constructor|].
  destruct Hd as (t0 & ts0 & steps & ret & counts & t1 & rec
                  & -> & Hend & _).
  eapply ordered_app; [|exact IH].
  apply episode_calls_ordered. exact Hend.
Qed.

(** The history of the outer loop: completed episodes, then the calls of
    an episode that did not complete. *)
Lemma run_loop_history f :
  forall nE nS ec sc (w : world) o w',
    run_loop' f nE nS ec sc w = (o, w') ->
    exists eps rest p,
      trace w' = trace w ++ concat eps ++ rest
      /\ Forall completed eps
      /\ ordered Between rest p
      /\ logged rest = []
      /\ match o with
         | Done (ec', sc') =>
             rest = [] /\ p = Between
             /\ ec' = ec + Z.of_nat (length eps)
             /\ sc' = sc + Z.of_nat (step_calls (concat eps))
             /\ should_terminate nE nS ec' sc' = true
         | _ => True
         end.
Proof.
  induction f as [|f IH]; intros nE nS ec sc w o w' H; simpl in H.
  - destruct (should_terminate nE nS ec sc) eqn:Hst; invert H;
      exists [], [], Between; simpl; rewrite app_nil_r;
      (split; [reflexivity|]); (split; [constructor|]);
      (split; [constructor|]); (split; [reflexivity|]); auto.
    repeat split; auto; lia.
  - destruct (should_terminate nE nS ec sc) eqn:Hst.
    { invert H. exists [], [], Between. simpl. rewrite app_nil_r.
      split; [reflexivity|]. split; [constructor|].
      split; [constructor|]. split; [reflexivity|].
      repeat split; auto; lia. }
    unfold bind in H.
    destruct (run_episode' f ec sc w) as [[[ec1 sc1]|err|] w1] eqn:H1.
    + apply run_episode_completed in H1 as (d1 & Ht1 & Hd1 & -> & ->).
      apply IH in H as (eps & rest & p & Ht & Heps & Hord & Hlog & Ho).
      exists (d1 :: eps), rest, p. simpl.
      split; [rewrite Ht, Ht1, <- !app_assoc; reflexivity|].
      split; [constructor; assumption|].
      split; [assumption|]. split; [assumption|].
      destruct o as [[ec' sc']|e|]; auto.
      destruct Ho as (-> & -> & -> & -> & Hfin).
      rewrite step_calls_app.
      replace (ec + Z.of_nat (S (length eps)))
        with (ec + 1 + Z.of_nat (length eps)) by lia.
      replace (sc + Z.of_nat (step_calls d1 + step_calls (concat eps)))
        with (sc + Z.of_nat (step_calls d1)
              + Z.of_nat (step_calls (concat eps))) by lia.
      auto.
    + invert H.
      apply run_episode_ordered in H1 as (d & p & Ht & Hord & Hlog);
        [|discriminate].
      exists [], d, p. simpl. auto.
    + invert H.
      apply run_episode_ordered in H1 as (d & p & Ht & Hord & Hlog);
        [|discriminate].
      exists [], d, p. simpl. auto.
Qed.

(** C3, as the code has it.  Whatever the outcome of a run (it returns,
    raises, or is cut short by the fuel), its calls follow one another in
    the order of an episode: the clock, [reset], [observe_first] with the
    timestep [reset] returned, then, while the current timestep is not
    LAST, [select_action] on its observation, [step] with the action
    chosen, [observe] with that action and the timestep [step] returned,
    [update]; and once the current timestep is LAST, the counter, the
    clock and the logger.  The history is made of completed episodes
    followed by the calls of an episode that gave the logger nothing; it
    is made of completed episodes only when the run returns, and the
    bound is then reached.  In the record of a completed episode,
    [episode_length] is the number of [step] calls of the episode and
    [episode_return] the sum of the rewards they returned, unless the
    totals returned by the counter have a key of that name. *)
Theorem run_call_order fuel nE nS (w : world) o w' :
  run' fuel nE nS w = (o, w') ->
  exists eps rest p,
    since w w' = concat eps ++ rest
    /\ Forall
         (fun d =>
            exists t0 ts0 steps ret counts t1 rec,
              d = episode_calls t0 ts0 steps
                    [("episodes"%string, 1);
                     ("steps"%string, Z.of_nat (length steps))]
                    counts t1 rec
              /\ ends_at_last ts0 steps
              /\ step_calls d = length steps
              /\ sum_rewards (PyInt 0) steps = inr ret
              /\ (counts !! "episode_length" = None ->
                  rec !! "episode_length"
                  = Some (PyInt (Z.of_nat (step_calls d))))
              /\ (counts !! "episode_return" = None ->
                  rec !! "episode_return" = Some ret))
         eps
    /\ logged rest = []
    /\ ordered Between (since w w') p
    /\ (o = Done tt ->
        rest = [] /\ p = Between
        /\ should_terminate nE nS (Z.of_nat (length eps))
             (Z.of_nat (step_calls (since w w'))) = true).
Proof.
  intros H.
  apply run_run in H as [(n & m & _ & _ & -> & ->)|(_ & r & H & Hr)].
  { exists [], [], Between. unfold since. rewrite drop_all. simpl.
    split; [reflexivity|]. split; [constructor|].
    split; [reflexivity|]. split; [constructor|]. discriminate. }
  apply run_loop_history in H as (eps & rest & p & Ht & Heps & Hord & Hlog
                                  & Ho).
  rewrite (since_app _ _ _ Ht).
  exists eps, rest, p.
  split; [reflexivity|]. split; [exact Heps|]. split; [exact Hlog|].
  split.
  { eapply ordered_app; [|exact Hord]. apply completed_ordered, Heps. }
  intros ->. destruct r as [[ec' sc']|e|]; try discriminate.
  destruct Ho as (-> & -> & -> & -> & Hfin).
  rewrite app_nil_r. simpl in Hfin. auto.
Qed.

End Order.

(** ** An episode from its calls *)

Section Forward.

Context {Obs Act E A C L K : Type}.
Variable environment : Environment Obs Act E.
Variable actor : Actor Obs Act A.
Variable counter : Counter C.
Variable logger : Logger L.
Variable clock : Clock K.

Local Abbreviation world := (World Obs Act E A C L K).
Local Abbreviation episode_loop' :=
  (episode_loop (C:=C) (L:=L) (K:=K) environment actor).
Local Abbreviation run_episode' :=
  (run_episode environment actor counter logger clock).

Lemma call_time_eq (w : world) t k :
  time clock (clock_state w) = (t, k) ->
  call_time clock w = (Done t, log (EvTime t) (set_clock k w)).
Proof. intros H. unfold call_time. rewrite H. reflexivity. Qed.

Lemma invoke_returns {S R} (get : world -> S) set (op : S -> result R * S)
    ev (w : world) v s :
  op (get w) = (inr v, s) ->
  invoke get set op ev w = (Done v, log (ev (inr v)) (set s w)).
Proof. intros H. unfold invoke. rewrite H. reflexivity. Qed.

Lemma invoke_raises {S R} (get : world -> S) set (op : S -> result R * S)
    ev (w : world) e s :
  op (get w) = (inl e, s) ->
  invoke get set op ev w = (Raised e, log (ev (inl e)) (set s w)).
Proof. intros H. unfold invoke. rewrite H. reflexivity. Qed.

(** What an episode does once its inner loop has returned: it calls the
    counter, reads the clock, divides, and writes the record. *)
Lemma run_episode_from_loop f ec sc (w : world)
    t0 k1 ts0 e1 a1 n rsum w4 counts c1 t1 k2 :
  time clock (clock_state w) = (t0, k1) ->
  env_reset environment (env_state w) = (inr ts0, e1) ->
  observe_first actor ts0 (actor_state w) = (inr tt, a1) ->
  episode_loop' f ts0 0 (PyInt 0)
    (mkWorld e1 a1 (counter_state w) (logger_state w) k1
       (trace w ++ [EvTime t0; EvReset (inr ts0);
                    EvObserveFirst ts0 (inr tt)]))
  = (Done (n, rsum), w4) ->
  increment counter [("episodes"%string, 1); ("steps"%string, n)]
            (counter_state w) = (inr counts, c1) ->
  time clock k1 = (t1, k2) ->
  run_episode' f ec sc w
  = match steps_per_second n t0 t1 with
    | inl e =>
        (Raised e,
         mkWorld (env_state w4) (actor_state w4) c1 (logger_state w) k2
           (trace w4
            ++ [EvIncrement [("episodes"%string, 1); ("steps"%string, n)]
                            (inr counts);
                EvTime t1]))
    | inr sps =>
        let rec := build_result n rsum sps counts in
        let rl := write logger rec (logger_state w) in
        (match fst rl with
         | inl e => Raised e
         | inr _ => Done (ec + 1, sc + n)
         end,
         mkWorld (env_state w4) (actor_state w4) c1 (snd rl) k2
           (trace w4
            ++ [EvIncrement [("episodes"%string, 1); ("steps"%string, n)]
                            (inr counts);
                EvTime t1;
                EvWrite rec (fst rl)]))
    end.
Proof.
  intros Ht0 Hreset Hfirst Hloop Hinc Ht1.
  pose proof Hloop as Hframe.
  apply episode_loop_run in Hframe as (d & _ & Hc & Hg & Hk & _).
  destruct w as [e0 a0 c0 l0 k0 tr0], w4 as [e4 a4 c4 l4 k4 tr4].
  cbn [env_state actor_state counter_state logger_state clock_state trace]
    in *.
  subst c4 l4 k4.
  unfold run_episode.
  erewrite bind_Done by (apply call_time_eq; exact Ht0).
  erewrite bind_Done by (apply invoke_returns; exact Hreset).
  erewrite bind_Done by (apply invoke_returns; exact Hfirst).
  erewrite bind_Done; cycle 1.
  { world_norm. rewrite <- !app_assoc. cbn [app]. exact Hloop. }
  cbv beta iota.
  erewrite bind_Done by (apply invoke_returns; exact Hinc).
  erewrite bind_Done by (apply call_time_eq; exact Ht1).
  destruct (steps_per_second n t0 t1) as [e|sps].
  { unfold bind, lift, raise. world_norm. rewrite <- !app_assoc.
    reflexivity. }
  unfold bind at 1. unfold lift, ret. cbv zeta.
  destruct (write logger (build_result n rsum sps counts) l0)
    as [[e|[]] l1] eqn:Hw.
  - erewrite bind_Raised by (apply invoke_raises; exact Hw).
    world_norm. rewrite <- !app_assoc. reflexivity.
  - erewrite bind_Done by (apply invoke_returns; exact Hw).
    world_norm. rewrite <- !app_assoc. reflexivity.
Qed.

Lemma steps_per_second_value n g t0 t1 :
  float_of_int n = inr g ->
  steps_per_second n t0 t1
  = if PrimFloat.eqb (PrimFloat.sub t1 t0) PrimFloat.zero
    then inl ZeroDivisionError
    else inr (PrimFloat.div g (PrimFloat.sub t1 t0)).
Proof.
  intros Hg. unfold steps_per_second, py_truediv. rewrite Hg. reflexivity.
Qed.

(** C5, as the code has it.  The division of line 123 is not guarded.
    For an episode whose inner loop returned after [n] steps, [n] a
    count that converts to a float, and whose counter returned: when
    the two clock readings cancel the episode raises ZeroDivisionError,
    the counter has been incremented with [episodes=1, steps=n] and
    nothing was given to the logger; otherwise one record is given to
    the logger and, unless the totals have a key of that name, its
    [steps_per_second] is the quotient of [n] by the elapsed time,
    whatever the sign of that time. *)
Theorem steps_per_second_needs_elapsed_time f ec sc (w : world)
    t0 k1 ts0 e1 a1 n rsum w4 counts c1 t1 k2 g :
  time clock (clock_state w) = (t0, k1) ->
  env_reset environment (env_state w) = (inr ts0, e1) ->
  observe_first actor ts0 (actor_state w) = (inr tt, a1) ->
  episode_loop' f ts0 0 (PyInt 0)
    (mkWorld e1 a1 (counter_state w) (logger_state w) k1
       (trace w ++ [EvTime t0; EvReset (inr ts0);
                    EvObserveFirst ts0 (inr tt)]))
  = (Done (n, rsum), w4) ->
  increment counter [("episodes"%string, 1); ("steps"%string, n)]
            (counter_state w) = (inr counts, c1) ->
  time clock k1 = (t1, k2) ->
  float_of_int n = inr g ->
  n = Z.of_nat (step_calls (since w w4))
  /\ (PrimFloat.eqb (PrimFloat.sub t1 t0) PrimFloat.zero = true ->
      exists w',
        run_episode' f ec sc w = (Raised ZeroDivisionError, w')
        /\ counter_state w' = c1
        /\ logger_state w' = logger_state w
        /\ increments (since w w')
           = [[("episodes"%string, 1); ("steps"%string, n)]]
        /\ written (since w w') = [])
  /\ (PrimFloat.eqb (PrimFloat.sub t1 t0) PrimFloat.zero = false ->
      exists rec w',
        run_episode' f ec sc w
        = (match fst (write logger rec (logger_state w)) with
           | inl e => Raised e
           | inr _ => Done (ec + 1, sc + n)
           end, w')
        /\ counter_state w' = c1
        /\ logger_state w' = snd (write logger rec (logger_state w))
        /\ increments (since w w')
           = [[("episodes"%string, 1); ("steps"%string, n)]]
        /\ written (since w w') = [rec]
        /\ (counts !! "steps_per_second" = None ->
            rec !! "steps_per_second"
            = Some (PyFloat (PrimFloat.div g (PrimFloat.sub t1 t0))))).
Proof.
  intros Ht0 Hreset Hfirst Hloop Hinc Ht1 Hg.
  pose proof (run_episode_from_loop f ec sc w _ _ _ _ _ _ _ _ _ _ _ _
                Ht0 Hreset Hfirst Hloop Hinc Ht1) as Hrun.
  rewrite (steps_per_second_value _ _ _ _ Hg) in Hrun.
  apply episode_loop_run in Hloop as (d & Ht & _ & _ & _ & _ & Ho).
  destruct Ho as (steps & -> & _ & Hn & _).
  cbn [trace] in Ht. rewrite <- app_assoc in Ht. cbn [app] in Ht.
  destruct (step_events_calls ts0 steps) as (Hs & Hw & Hi & _).
  split; [|split].
  - rewrite (since_app _ _ _ Ht). simpl. rewrite Hs. lia.
  - intros Hz. rewrite Hz in Hrun. eexists. split; [exact Hrun|].
    split; [reflexivity|]. split; [reflexivity|].
    erewrite since_app
      by (cbn [trace]; rewrite Ht, <- app_assoc; reflexivity).
    simpl. rewrite increments_app, written_app, Hi, Hw. auto.
  - intros Hz. rewrite Hz in Hrun. cbv zeta in Hrun.
    eexists _, _. split; [exact Hrun|].
    split; [reflexivity|]. split; [reflexivity|].
    erewrite since_app
      by (cbn [trace]; rewrite Ht, <- app_assoc; reflexivity).
    simpl. rewrite increments_app, written_app, Hi, Hw. simpl.
    split; [reflexivity|]. split; [reflexivity|].
    intros Hnone. rewrite (build_result_computed _ _ _ _ _ Hnone).
    apply (computed_fields_lookup n).
Qed.

(** C10, as the code has it.  When [reset] answers with a LAST timestep
    the inner loop does not run: after the clock, [reset] and
    [observe_first], the counter is called with [episodes=1, steps=0] and
    the clock is read again, and no [select_action], [step], [observe]
    or [update] is called.  When the two clock readings cancel the
    division raises ZeroDivisionError and the logger is not called;
    otherwise a record goes to the logger, in which [episode_length] and
    [episode_return] are 0 unless the totals have a key of that name. *)
Theorem reset_at_last_is_counted fuel ec sc (w : world)
    ts0 e1 a1 counts c1 t0 k1 t1 k2 :
  env_reset environment (env_state w) = (inr ts0, e1) ->
  last ts0 = true ->
  observe_first actor ts0 (actor_state w) = (inr tt, a1) ->
  increment counter [("episodes"%string, 1); ("steps"%string, 0)]
            (counter_state w) = (inr counts, c1) ->
  time clock (clock_state w) = (t0, k1) ->
  time clock k1 = (t1, k2) ->
  (PrimFloat.eqb (PrimFloat.sub t1 t0) PrimFloat.zero = true ->
   run_episode' fuel ec sc w
   = (Raised ZeroDivisionError,
      mkWorld e1 a1 c1 (logger_state w) k2
        (trace w
         ++ [EvTime t0;
             EvReset (inr ts0);
             EvObserveFirst ts0 (inr tt);
             EvIncrement [("episodes"%string, 1); ("steps"%string, 0)]
                         (inr counts);
             EvTime t1])))
  /\ (PrimFloat.eqb (PrimFloat.sub t1 t0) PrimFloat.zero = false ->
      exists rec,
        run_episode' fuel ec sc w
        = (match fst (write logger rec (logger_state w)) with
           | inl e => Raised e
           | inr _ => Done (ec + 1, sc + 0)
           end,
           mkWorld e1 a1 c1 (snd (write logger rec (logger_state w))) k2
             (trace w
              ++ [EvTime t0;
                  EvReset (inr ts0);
                  EvObserveFirst ts0 (inr tt);
                  EvIncrement [("episodes"%string, 1); ("steps"%string, 0)]
                              (inr counts);
                  EvTime t1;
                  EvWrite rec (fst (write logger rec (logger_state w)))]))
        /\ (counts !! "episode_length" = None ->
            rec !! "episode_length" = Some (PyInt 0))
        /\ (counts !! "episode_return" = None ->
            rec !! "episode_return" = Some (PyInt 0))
        /\ (forall k v, counts !! k = Some v -> rec !! k = Some v)).
Proof.
  intros Hreset Hlast Hfirst Hinc Ht0 Ht1.
  assert (Hloop : forall w1 : world,
             episode_loop' fuel ts0 0 (PyInt 0) w1
             = (Done (0, PyInt 0), w1)).
  { intros w1. destruct fuel; simpl; rewrite Hlast; reflexivity. }
  pose proof (run_episode_from_loop fuel ec sc w _ _ _ _ _ _ _ _ _ _ _ _
                Ht0 Hreset Hfirst (Hloop _) Hinc Ht1) as Hrun.
  rewrite (steps_per_second_value _ _ _ _ float_of_int_0) in Hrun.
  cbn [env_state actor_state trace] in Hrun.
  rewrite <- !app_assoc in Hrun. cbn [app] in Hrun.
  split; intros Hz; rewrite Hz in Hrun.
  - exact Hrun.
  - cbv zeta in Hrun. rewrite <- !app_assoc in Hrun. cbn [app] in Hrun.
    eexists. split; [exact Hrun|].
    destruct (computed_fields_lookup 0 (PyInt 0)
                (PrimFloat.div PrimFloat.zero (PrimFloat.sub t1 t0)))
      as (H1 & H2 & _).
    split; [|split].
    + intros Hn. rewrite (build_result_computed _ _ _ _ _ Hn). exact H1.
    + intros Hn. rewrite (build_result_computed _ _ _ _ _ Hn). exact H2.
    + intros k v Hk. apply build_result_counts. exact Hk.
Qed.

End Forward.

(** ** How a run fails, and what a run leaves behind *)

Section Outcomes.

Context {Obs Act E A C L K : Type}.
Variable environment : Environment Obs Act E.
Variable actor : Actor Obs Act A.
Variable counter : Counter C.
Variable logger : Logger L.
Variable clock : Clock K.

Local Abbreviation world := (World Obs Act E A C L K).
Local Abbreviation episode_loop' :=
  (episode_loop (C:=C) (L:=L) (K:=K) environment actor).
Local Abbreviation run_episode' :=
  (run_episode environment actor counter logger clock).
Local Abbreviation run_loop' :=
  (run_loop environment actor counter logger clock).
Local Abbreviation run' := (run environment actor counter logger clock).

(** The inner loop raises at a call of the actor or the environment, or
    when a reward cannot be added. *)
Lemma episode_loop_raised f :
  forall ts n r (w : world) e w',
    episode_loop' f ts n r w = (Raised e, w') ->
    exists d ev,
      trace w' = trace w ++ d ++ [ev]
      /\ (agent_raised ev = Some e
          \/ ev = EvUpdate (inr tt)
             /\ exists acc rw, py_add acc rw = inl e).
Proof.
  induction f as [|f IH]; intros ts n r w e w' H; simpl in H.
  - destruct (last ts); discriminate.
  - destruct (last ts) eqn:Hl; [discriminate|].
    unfold bind in H.
    next_in H; [|invert H; stopped_at; left; reflexivity].
    next_in H; [|invert H; stopped_at; left; reflexivity].
    next_in H; [|invert H; stopped_at; left; reflexivity].
    next_in H; [|invert H; stopped_at; left; reflexivity].
    unfold lift in H.
    match goal with
    | Hs : env_step environment ?a _ = (inr ?t, _) |- _ =>
        rename a into act; rename t into ts'
    end.
    destruct (py_add r (reward ts')) as [err|r1] eqn:Hadd; simpl in H.
    { invert H. stopped_at. right. split; [reflexivity|]. eauto. }
    apply IH in H as (d & ev & Ht & Hev).
    simpl in Ht. rewrite <- !app_assoc in Ht. simpl in Ht.
    exists (EvSelectAction (observation ts) (inr act)
              :: EvStep act (inr ts')
              :: EvObserve act ts' (inr tt)
              :: EvUpdate (inr tt) :: d), ev.
    split; [exact Ht|exact Hev].
Qed.

(** The division raises for two reasons only. *)
Lemma steps_per_second_raises n t0 t1 e :
  steps_per_second n t0 t1 = inl e ->
  e = OverflowError
  \/ e = ZeroDivisionError
     /\ PrimFloat.eqb (PrimFloat.sub t1 t0) PrimFloat.zero = true.
Proof.
  unfold steps_per_second, py_truediv, float_of_int.
  destruct (PrimFloat.is_infinity _); [intros [= <-]; auto|].
  destruct (PrimFloat.eqb _ _); [intros [= <-]; auto|discriminate].
Qed.

(** The four places where an episode can fail: in the environment, the
    actor or the sum of the rewards, before anything is counted; in the
    counter; in the division, once the episode is counted; in the
    logger. *)
Lemma run_episode_raised f ec sc (w : world) e w' :
  run_episode' f ec sc w = (Raised e, w') ->
  exists d ev,
    trace w' = trace w ++ d ++ [ev]
    /\ (((agent_raised ev = Some e
          \/ ev = EvUpdate (inr tt)
             /\ exists acc rw, py_add acc rw = inl e)
         /\ counter_state w' = counter_state w
         /\ logger_state w' = logger_state w
         /\ increments (d ++ [ev]) = []
         /\ written (d ++ [ev]) = [])
        \/ ((exists kw, ev = EvIncrement kw (inl e))
            /\ logger_state w' = logger_state w
            /\ written (d ++ [ev]) = [])
        \/ (exists n t0 t1 counts,
               ev = EvTime t1
               /\ steps_per_second n t0 t1 = inl e
               /\ increments (d ++ [ev]) = [increment_kwargs n]
               /\ increment counter (increment_kwargs n) (counter_state w)
                  = (inr counts, counter_state w')
               /\ logger_state w' = logger_state w
               /\ written (d ++ [ev]) = [])
        \/ (exists n rec,
               ev = EvWrite rec (inl e)
               /\ increments (d ++ [ev]) = [increment_kwargs n])).
Proof.
  unfold run_episode, bind; intros H.
  next_in H.
  next_in H; cycle 1.
  { invert H. stopped_at. left. simpl. auto 10. }
  next_in H; cycle 1.
  { invert H. stopped_at. left. simpl. auto 10. }
  match goal with
  | Hs : env_reset environment _ = (inr ?t, _) |- _ => rename t into ts0
  end.
  match type of H with
  | (let (_, _) := ?c in _) = _ => destruct c as [o4 w4] eqn:H4
  end.
  pose proof H4 as H4'.
  apply episode_loop_run in H4 as (d & Ht & Hc & Hg & Hk & Hin & Ho).
  simpl in Ht, Hc, Hg, Hk. rewrite <- !app_assoc in Ht. simpl in Ht.
  destruct (inner_calls_quiet _ Hin) as (Hw & Hi & Hr).
  destruct o4 as [[n' r']|err|]; cycle 1.
  { invert H.
    apply episode_loop_raised in H4' as (d1 & ev & Ht1 & Hev).
    simpl in Ht1. rewrite <- !app_assoc in Ht1. simpl in Ht1.
    rewrite Ht in Ht1. apply app_inv_head in Ht1.
    injection Ht1 as Hd. subst d.
    eexists (_ :: _ :: _ :: d1), ev.
    split; [rewrite Ht; reflexivity|].
    left. split; [exact Hev|]. simpl. auto. }
  { discriminate. }
  destruct Ho as (steps & -> & Hend & -> & Hsum).
  rewrite Z.add_0_l in H. simpl in H.
  next_in H; cycle 1.
  { invert H. simpl. rewrite Ht, <- !app_assoc. simpl.
    eexists (_ :: _ :: _ :: step_events ts0 steps), _.
    split; [reflexivity|]. right. left.
    split; [eauto|]. split; [assumption|].
    simpl. rewrite written_app, Hw. reflexivity. }
  simpl in H. unfold lift in H.
  match type of H with
  | context [steps_per_second ?n ?a ?b] =>
      destruct (steps_per_second n a b) as [err|sps] eqn:Hsps
  end; simpl in H.
  { invert H. simpl. rewrite Ht, <- !app_assoc. simpl.
    eexists (_ :: _ :: _ :: step_events ts0 steps ++ [_]), _.
    split; [simpl; rewrite <- app_assoc; reflexivity|].
    right. right. left.
    do 4 eexists. split; [reflexivity|]. split; [exact Hsps|].
    simpl. rewrite <- !app_assoc, increments_app, written_app, Hi, Hw.
    simpl. rewrite <- Hc. repeat split; eauto. }
  next_in H; [discriminate|].
  invert H. simpl. rewrite Ht, <- !app_assoc. simpl.
  eexists (_ :: _ :: _ :: step_events ts0 steps ++ [_; _]), _.
  split; [simpl; rewrite <- app_assoc; reflexivity|].
  right. right. right.
  do 2 eexists. split; [reflexivity|].
  simpl. rewrite <- !app_assoc, increments_app, Hi. reflexivity.
Qed.

(** A loop that raises ran completed episodes, then an episode that
    raised. *)
Lemma run_loop_raised f :
  forall nE nS ec sc (w : world) e w',
    run_loop' f nE nS ec sc w = (Raised e, w') ->
    exists pre wk fk eck sck,
      trace wk = trace w ++ pre
      /\ complete_episodes pre
      /\ run_episode' fk eck sck wk = (Raised e, w').
Proof.
  induction f as [|f IH]; intros nE nS ec sc w e w' H; simpl in H.
  - destruct (should_terminate nE nS ec sc); discriminate.
  - destruct (should_terminate nE nS ec sc); [discriminate|].
    unfold bind in H.
    destruct (run_episode' f ec sc w) as [[[ec1 sc1]|err|] w1] eqn:H1;
      [| |discriminate].
    + apply IH in H as (pre & wk & fk & eck & sck & Ht & Hpre & Hk).
      apply run_episode_run in H1 as (d1 & Ht1 & _ & Ho1).
      destruct Ho1 as (t0 & ts0 & steps & ret & counts & t1 & sps
                       & -> & Hend & Hsum & Hsps & _).
      exists (episode_events t0 ts0 steps ret counts t1 sps ++ pre),
        wk, fk, eck, sck.
      split; [rewrite Ht, Ht1, app_assoc; reflexivity|].
      split; [constructor; assumption|exact Hk].
    + invert H. exists [], w, f, ec, sc.
      rewrite app_nil_r. split; [reflexivity|].
      split; [constructor|exact H1].
Qed.

(** How a run that raises is made: completed episodes, then the calls
    of the episode that failed. *)
Lemma run_raised fuel nE nS (w : world) e w' d ev :
  run' fuel nE nS w = (Raised e, w') ->
  since w w' = d ++ [ev] ->
  exists pre wk fk eck sck d1,
    complete_episodes pre
    /\ run_episode' fk eck sck wk = (Raised e, w')
    /\ trace w' = trace wk ++ d1 ++ [ev]
    /\ since w w' = pre ++ d1 ++ [ev].
Proof.
  intros H Hd.
  apply run_run in H as [(n & m & _ & _ & _ & ->)|(_ & r & H & Hr)].
  { unfold since in Hd. rewrite drop_all in Hd. destruct d; discriminate. }
  destruct r as [[ec' sc']|e0|]; try discriminate.
  injection Hr as ->.
  apply run_loop_raised in H as (pre & wk & fk & eck & sck & Ht & Hpre & Hk).
  destruct (run_episode_raised _ _ _ _ _ _ Hk) as (d1 & ev1 & Ht1 & _).
  assert (Hs : since w w' = pre ++ d1 ++ [ev1]).
  { apply since_app. rewrite Ht1, Ht, <- app_assoc. reflexivity. }
  assert (ev1 = ev).
  { rewrite Hs, app_assoc in Hd. apply app_inj_tail in Hd as [_ ?].
    assumption. }
  subst ev1. exists pre, wk, fk, eck, sck, d1. auto.
Qed.

(** With a bound that is zero or negative [run] returns at once and
    calls nothing: the world is unchanged. *)
Theorem reached_bound_makes_no_call fuel n (w : world) :
  n <= 0 ->
  run' fuel (Some n) None w = (Done tt, w)
  /\ run' fuel None (Some n) w = (Done tt, w)
  /\ since w (snd (run' fuel (Some n) None w)) = []
  /\ since w (snd (run' fuel None (Some n) w)) = [].
Proof.
  intros Hn. assert (Hge : (0 >=? n) = true) by lia.
  assert (He : run' fuel (Some n) None w = (Done tt, w)).
  { unfold run, bind. cbn [is_None orb negb].
    destruct fuel; cbn [run_loop];
      rewrite should_terminate_episodes, Hge; reflexivity. }
  assert (Hs : run' fuel None (Some n) w = (Done tt, w)).
  { unfold run, bind. cbn [is_None orb negb].
    destruct fuel; cbn [run_loop];
      rewrite should_terminate_steps, Hge; reflexivity. }
  rewrite He, Hs. unfold since. cbn [snd]. rewrite drop_all. auto.
Qed.

(** [run(num_episodes=n)] that returns has run exactly [max 0 n]
    episodes, whatever the totals of the counter were: it reset the
    environment, incremented the counter and wrote a record that many
    times. *)
Theorem episode_bound_is_exact fuel n (w w' : world) :
  run' fuel (Some n) None w = (Done tt, w') ->
  length (written (since w w')) = Z.to_nat n
  /\ resets (since w w') = Z.to_nat n
  /\ length (increments (since w w')) = Z.to_nat n.
Proof.
  intros H.
  apply run_run in H as [(n0 & m & _ & Hm & _)|(_ & r & H & Hr)];
    [discriminate|].
  destruct r as [[ec' sc']|e|]; try discriminate.
  apply run_loop_run in H as (d & Ht & Hce & -> & -> & Hfin & Hlast).
  rewrite (since_app _ _ _ Ht).
  destruct (complete_episodes_counts _ Hce) as (Hr1 & Hr2 & _).
  rewrite Hr1, Hr2.
  rewrite should_terminate_episodes in Hfin. apply Z.geb_le in Hfin.
  assert (length (written d) = Z.to_nat n); [|auto].
  destruct Hlast as [-> | [_ Hprev]].
  - cbn [written length] in *. lia.
  - rewrite should_terminate_episodes in Hprev.
    rewrite Z.geb_leb in Hprev. apply Z.leb_gt in Hprev. lia.
Qed.

(** When a run stops at a call of the environment or the actor that
    raised, the run raises that exception and the failed episode was not
    counted: the counter was incremented once per record written, that
    is once per completed episode, and the environment was reset once
    more. *)
Theorem failed_episode_is_not_counted fuel nE nS (w w' : world) e d ev e' :
  run' fuel nE nS w = (Raised e, w') ->
  since w w' = d ++ [ev] ->
  agent_raised ev = Some e' ->
  e' = e
  /\ length (increments (since w w')) = length (written (since w w'))
  /\ resets (since w w') = S (length (written (since w w'))).
Proof.
  intros H Hd Hev.
  destruct (run_raised _ _ _ _ _ _ _ _ H Hd)
    as (pre & wk & fk & eck & sck & d1 & Hpre & Hk & Ht1 & Hs).
  destruct (run_episode_run _ _ _ _ _ _ _ _ _ _ _ Hk) as (dk & Htk & Hrk & _).
  assert (dk = d1 ++ [ev])
    by (rewrite Ht1 in Htk; eapply app_inv_head, eq_sym, Htk).
  subst dk.
  destruct (run_episode_raised _ _ _ _ _ _ Hk) as (d2 & ev2 & Ht2 & Hcase).
  assert (d1 = d2 /\ ev = ev2) as [<- <-].
  { rewrite Ht1 in Ht2. apply app_inv_head in Ht2.
    apply app_inj_tail in Ht2. exact Ht2. }
  destruct (complete_episodes_counts _ Hpre) as (Hc1 & Hc2 & _).
  rewrite Hs, increments_app, written_app, resets_app, !length_app.
  destruct Hcase as [([Ha|[-> _]] & _ & _ & Hi & Hw)
                    |[((kw & ->) & _)
                     |[(n & t0 & t1 & counts & -> & _)
                      |(n & rec & -> & _)]]];
    try discriminate.
  rewrite Hi, Hw, Hrk, Hc1, Hc2. simpl.
  split; [congruence|]. split; lia.
Qed.

(** When a run stops right after a clock reading, the division of line
    123 raised: the exception is ZeroDivisionError or OverflowError, and
    the episode is counted but not logged: the counter was incremented
    once more than a record was written. *)
Theorem failed_division_is_counted fuel nE nS (w w' : world) e d t :
  run' fuel nE nS w = (Raised e, w') ->
  since w w' = d ++ [EvTime t] ->
  (e = OverflowError \/ e = ZeroDivisionError)
  /\ length (increments (since w w')) = S (length (written (since w w'))).
Proof.
  intros H Hd.
  destruct (run_raised _ _ _ _ _ _ _ _ H Hd)
    as (pre & wk & fk & eck & sck & d1 & Hpre & Hk & Ht1 & Hs).
  destruct (run_episode_raised _ _ _ _ _ _ Hk) as (d2 & ev2 & Ht2 & Hcase).
  assert (d1 = d2 /\ EvTime t = ev2) as [<- <-].
  { rewrite Ht1 in Ht2. apply app_inv_head in Ht2.
    apply app_inj_tail in Ht2. exact Ht2. }
  destruct (complete_episodes_counts _ Hpre) as (Hc1 & Hc2 & _).
  rewrite Hs, increments_app, written_app, !length_app.
  destruct Hcase as [([Ha|[? _]] & _)
                    |[((kw & ?) & _)
                     |[(n & t0 & t1 & counts & _ & Hsps & Hi & _ & _ & Hw)
                      |(n & rec & ? & _)]]];
    try discriminate.
  rewrite Hi, Hw, Hc2. simpl.
  split; [|lia].
  destruct (steps_per_second_raises _ _ _ _ Hsps) as [?|[? _]]; auto.
Qed.

(** With a clock that always gives the same finite reading no episode
    completes. *)
Lemma frozen_clock_episode t f ec sc (w : world) r w' :
  (forall k, fst (time clock k) = t) ->
  PrimFloat.eqb (PrimFloat.sub t t) PrimFloat.zero = true ->
  run_episode' f ec sc w <> (Done r, w').
Proof.
  intros Hclock Hzero H. destruct r as [ec' sc'].
  apply run_episode_run in H as (d & _ & _ & Ho).
  destruct Ho as (t0 & ts0 & steps & ret & counts & t1 & sps
                  & _ & _ & _ & Hsps & _ & _ & _ & _ & Ht0 & Ht1 & _).
  assert (t1 = t).
  { rewrite <- (Hclock (snd (time clock (clock_state w)))), Ht1.
    reflexivity. }
  rewrite Hclock in Ht0. subst t0 t1.
  unfold steps_per_second, py_truediv in Hsps.
  destruct (float_of_int _); [discriminate|].
  rewrite Hzero in Hsps. discriminate.
Qed.

(** So with such a clock a run returns only when its bound asks for no
    episode, and then it changes nothing. *)
Theorem frozen_clock_completes_no_episode t fuel nE nS (w w' : world) :
  (forall k, fst (time clock k) = t) ->
  PrimFloat.eqb (PrimFloat.sub t t) PrimFloat.zero = true ->
  run' fuel nE nS w = (Done tt, w') ->
  w' = w /\ should_terminate nE nS 0 0 = true.
Proof.
  intros Hclock Hzero H.
  apply run_run in H as [(n & m & _ & _ & Hd & _)|(_ & r & H & Hr)];
    [discriminate|].
  destruct r as [r|e|]; try discriminate.
  destruct fuel as [|fuel]; simpl in H.
  - destruct (should_terminate nE nS 0 0); [|discriminate].
    invert H. auto.
  - destruct (should_terminate nE nS 0 0); [invert H; auto|].
    unfold bind in H.
    destruct (run_episode' fuel 0 0 w) as [[[ec1 sc1]|e|] w1] eqn:H1;
      try discriminate.
    exfalso. eapply frozen_clock_episode; eassumption.
Qed.

(** Integer rewards are summed as integers. *)
Lemma sum_rewards_ints (steps : list (Act * TimeStep Obs)) :
  forall a zs,
    map (fun s => reward (snd s)) steps = map PyInt zs ->
    sum_rewards (PyInt a) steps = inr (PyInt (a + foldr Z.add 0 zs)).
Proof.
  induction steps as [|[act ts] steps IH]; intros a zs Hz;
    destruct zs as [|z zs]; try discriminate; simpl in *.
  - rewrite Z.add_0_r. reflexivity.
  - injection Hz as Hr Hz. rewrite Hr. simpl.
    rewrite (IH _ _ Hz). f_equal. f_equal. lia.
Qed.

(** When every reward of a completed episode is an int, the return put
    in the record is the int that is their exact sum ([episode_return]
    starts as the int 0 and no float conversion takes place). *)
Theorem integer_rewards_sum_exactly fuel ec sc (w w' : world) ec' sc' :
  run_episode' fuel ec sc w = (Done (ec', sc'), w') ->
  exists t0 ts0 steps ret counts t1 sps,
    since w w' = episode_events t0 ts0 steps ret counts t1 sps
    /\ forall zs,
        map (fun s => reward (snd s)) steps = map PyInt zs ->
        ret = PyInt (foldr Z.add 0 zs)
        /\ computed_fields (Z.of_nat (length steps)) ret sps
             !! "episode_return" = Some (PyInt (foldr Z.add 0 zs)).
Proof.
  intros H. apply run_episode_run in H as (d & Ht & _ & Ho).
  destruct Ho as (t0 & ts0 & steps & ret & counts & t1 & sps
                  & -> & _ & Hsum & _).
  exists t0, ts0, steps, ret, counts, t1, sps.
  split; [exact (since_app _ _ _ Ht)|].
  intros zs Hz. rewrite (sum_rewards_ints _ _ _ Hz) in Hsum.
  injection Hsum as <-.
  split; [reflexivity|].
  apply (computed_fields_lookup (Z.of_nat (length steps))).
Qed.

(** The keys of a record. *)
Lemma build_result_dom n ret sps (counts : gmap string pyval) :
  dom (build_result n ret sps counts)
  = dom counts
    ∪ {[ "episode_length"%string; "episode_return"%string;
         "steps_per_second"%string ]}.
Proof.
  unfold build_result, dict_update, computed_fields.
  rewrite dom_union_L, !dom_insert_L, dom_empty_L. set_solver.
Qed.

(** The record of a completed episode has the keys of the totals and the
    three computed fields, no other; a computed field that is not a key
    of the totals holds the number of steps, the sum of the rewards, or
    the quotient of the steps by the elapsed time. *)
Theorem record_without_collision fuel ec sc (w w' : world) ec' sc' :
  run_episode' fuel ec sc w = (Done (ec', sc'), w') ->
  exists t0 ts0 steps ret counts t1 sps rec,
    since w w' = episode_events t0 ts0 steps ret counts t1 sps
    /\ written (since w w') = [rec]
    /\ sum_rewards (PyInt 0) steps = inr ret
    /\ steps_per_second (Z.of_nat (length steps)) t0 t1 = inr sps
    /\ dom rec
       = dom counts
         ∪ {[ "episode_length"%string; "episode_return"%string;
              "steps_per_second"%string ]}
    /\ (counts !! "episode_length" = None ->
        rec !! "episode_length" = Some (PyInt (Z.of_nat (length steps))))
    /\ (counts !! "episode_return" = None ->
        rec !! "episode_return" = Some ret)
    /\ (counts !! "steps_per_second" = None ->
        rec !! "steps_per_second" = Some (PyFloat sps)).
Proof.
  intros H. apply run_episode_run in H as (d & Ht & _ & Ho).
  destruct Ho as (t0 & ts0 & steps & ret & counts & t1 & sps
                  & -> & _ & Hsum & Hsps & _).
  destruct (episode_events_summary t0 ts0 steps ret counts t1 sps)
    as (Hw & _).
  destruct (computed_fields_lookup (Z.of_nat (length steps)) ret sps)
    as (H1 & H2 & H3).
  exists t0, ts0, steps, ret, counts, t1, sps,
    (build_result (Z.of_nat (length steps)) ret sps counts).
  rewrite (since_app _ _ _ Ht).
  split; [reflexivity|]. split; [exact Hw|].
  split; [exact Hsum|]. split; [exact Hsps|].
  split; [apply build_result_dom|].
  repeat split; intros Hn; rewrite (build_result_computed _ _ _ _ _ Hn);
    assumption.
Qed.

(** The inner loop calls the actor and the environment only: whether it
    returns, raises or is cut short, the states of the counter, the
    logger and the clock are as before, nothing was counted or written
    and the environment was not reset. *)
Theorem inner_loop_calls_only_the_agent f ts n r (w w' : world) o :
  episode_loop' f ts n r w = (o, w') ->
  counter_state w' = counter_state w
  /\ logger_state w' = logger_state w
  /\ clock_state w' = clock_state w
  /\ Forall inner_call (since w w')
  /\ written (since w w') = []
  /\ increments (since w w') = []
  /\ resets (since w w') = O.
Proof.
  intros H.
  apply episode_loop_run in H as (d & Ht & Hc & Hg & Hk & Hin & _).
  rewrite (since_app _ _ _ Ht).
  destruct (inner_calls_quiet _ Hin) as (Hw & Hi & Hr).
  auto 10.
Qed.

End Outcomes.

(** ** The totals of the counter over a run *)

Section Totals.

Context {Obs Act E A L K : Type}.
Variable environment : Environment Obs Act E.
Variable actor : Actor Obs Act A.
Variable logger : Logger L.
Variable clock : Clock K.

Local Abbreviation cworld := (World Obs Act E A SpecCounter.state L K).

Lemma run_loop_totals f :
  forall nE nS ec sc (w : cworld) r w',
    run_loop environment actor SpecCounter.counter logger clock
             f nE nS ec sc w = (Done r, w') ->
    SpecCounter.total (counter_state w') "episodes"
    = SpecCounter.total (counter_state w) "episodes"
      + Z.of_nat (length (written (since w w')))
    /\ SpecCounter.total (counter_state w') "steps"
       = SpecCounter.total (counter_state w) "steps"
         + Z.of_nat (step_calls (since w w')).
Proof.
  induction f as [|f IH]; intros nE nS ec sc w r w' H; simpl in H.
  - destruct (should_terminate nE nS ec sc); [|discriminate].
    invert H. unfold since. rewrite drop_all. simpl. lia.
  - destruct (should_terminate nE nS ec sc).
    { invert H. unfold since. rewrite drop_all. simpl. lia. }
    unfold bind in H.
    destruct (run_episode environment actor SpecCounter.counter logger
                          clock f ec sc w)
      as [[[ec1 sc1]|e|] w1] eqn:H1; try discriminate.
    pose proof H as H2.
    apply run_loop_run in H2 as (d2 & Ht2 & _).
    apply IH in H as (He & Hs).
    apply run_episode_run in H1 as (d1 & Ht1 & _ & Ho1).
    destruct Ho1 as (t0 & ts0 & steps & ret & counts & t1 & sps
                     & -> & _ & _ & _ & _ & _ & _ & Hinc & _).
    destruct (episode_events_summary t0 ts0 steps ret counts t1 sps)
      as (Hw1 & _ & Hc1 & _).
    rewrite (since_app _ _ _ Ht2) in He, Hs.
    rewrite (since_app w w' (episode_events t0 ts0 steps ret counts t1 sps
                             ++ d2))
      by (rewrite Ht2, Ht1, app_assoc; reflexivity).
    rewrite written_app, step_calls_app, Hw1, Hc1, length_app.
    destruct (increment_totals (counter_state w)
                (Z.of_nat (length steps))) as (_ & He1 & Hs1 & _).
    simpl in Hinc. rewrite Hinc in He1, Hs1. simpl in He1, Hs1.
    rewrite He, Hs. unfold SpecCounter.total at 1 3.
    rewrite He1, Hs1. simpl. lia.
Qed.

(** With the counter modelled above, a run that returns has added the
    number of its episodes to the total [episodes] and the number of
    [step] calls it made to the total [steps]: the totals carry on from
    one call of [run] to the next, while [episode_count] and
    [step_count] start from zero each time. *)
Theorem counter_totals_follow_the_run fuel nE nS (w w' : cworld) :
  run environment actor SpecCounter.counter logger clock fuel nE nS w
  = (Done tt, w') ->
  SpecCounter.total (counter_state w') "episodes"
  = SpecCounter.total (counter_state w) "episodes"
    + Z.of_nat (length (written (since w w')))
  /\ SpecCounter.total (counter_state w') "steps"
     = SpecCounter.total (counter_state w) "steps"
       + Z.of_nat (step_calls (since w w')).
Proof.
  intros H.
  apply run_run in H as [(n & m & _ & _ & Hd & _)|(_ & r & H & Hr)];
    [discriminate|].
  destruct r as [r|e|]; try discriminate.
  eapply run_loop_totals. exact H.
Qed.

End Totals.

(** ** The scenarios *)

Section Scenarios.
Import Scenario.

Local Abbreviation world_of K :=
  (World unit unit nat nat SpecCounter.state (list (gmap string pyval)) K).

Lemma tick_forward :
  steps_per_second (0 + 1) PrimFloat.zero PrimFloat.one = inr PrimFloat.one.
Proof. vm_compute. reflexivity. Qed.

Lemma tick_backward :
  steps_per_second (0 + 1) PrimFloat.one PrimFloat.zero
  = inr (PrimFloat.opp PrimFloat.one).
Proof. vm_compute. reflexivity. Qed.

Lemma tick_forward_0 :
  steps_per_second 0 PrimFloat.zero PrimFloat.one = inr PrimFloat.zero.
Proof. vm_compute. reflexivity. Qed.

Lemma tick_backward_0 :
  steps_per_second 0 PrimFloat.one PrimFloat.zero
  = inr (PrimFloat.opp PrimFloat.zero).
Proof. vm_compute. reflexivity. Qed.

Ltac ticks :=
  rewrite ?tick_forward, ?tick_backward, ?tick_forward_0, ?tick_backward_0.

(** Every episode of the one-step environment completes, whatever the
    state of the collaborators. *)
Lemma one_step_episode ec sc (w : world_of bool) :
  exists w',
    run_episode one_step_env idle_actor SpecCounter.counter list_logger
                tick_clock 1 ec sc w
    = (Done (ec + 1, sc + 1), w').
Proof.
  destruct w as [e a c l k tr]. unfold run_episode.
  destruct k; do 4 step ticks; cbv beta iota; do 4 step ticks;
    eexists; reflexivity.
Qed.

(** So does every episode of the environment that resets to LAST, with
    no step. *)
Lemma terminal_episode fuel ec sc (w : world_of bool) :
  exists w',
    run_episode terminal_env idle_actor SpecCounter.counter list_logger
                tick_clock fuel ec sc w
    = (Done (ec + 1, sc + 0), w').
Proof.
  destruct w as [e a c l k tr]. unfold run_episode.
  destruct k; do 3 step ticks;
    (erewrite bind_Done; [|destruct fuel; reflexivity]);
    cbv beta iota; do 4 step ticks; eexists; reflexivity.
Qed.

(** Episodes without steps never reach a positive step bound. *)
Lemma run_loop_stuck_at_zero_steps fuel :
  forall ec (w : world_of bool) r w',
    run_loop terminal_env idle_actor SpecCounter.counter list_logger
             tick_clock fuel None (Some 1) ec 0 w <> (Done r, w').
Proof.
  induction fuel as [|fuel IH]; intros ec w r w' H; simpl in H.
  - discriminate.
  - destruct (terminal_episode fuel ec 0 w) as (w1 & H1).
    unfold bind in H. rewrite H1 in H. eapply IH. exact H.
Qed.

(** C1, counterexample.  Two runs whose episodes all complete and that
    never return, whatever the fuel: one-step episodes with no bound at
    all, and episodes without steps with [num_steps = 1]. *)
Lemma run_without_exit :
  (forall ec sc (w : world_of bool),
      exists w',
        run_episode one_step_env idle_actor SpecCounter.counter list_logger
                    tick_clock 1 ec sc w = (Done (ec + 1, sc + 1), w'))
  /\ (forall fuel (w w' : world_of bool),
         run one_step_env idle_actor SpecCounter.counter list_logger
             tick_clock fuel None None w <> (Done tt, w'))
  /\ (forall fuel ec sc (w : world_of bool),
         exists w',
           run_episode terminal_env idle_actor SpecCounter.counter
                       list_logger tick_clock fuel ec sc w
           = (Done (ec + 1, sc + 0), w'))
  /\ (forall fuel (w w' : world_of bool),
         run terminal_env idle_actor SpecCounter.counter list_logger
             tick_clock fuel None (Some 1) w <> (Done tt, w')).
Proof.
  split; [exact one_step_episode|]. split; [|split; [exact terminal_episode|]].
  - intros fuel w w' H.
    apply run_run in H as [(n & m & Hn & _)|(_ & r & H & Hr)];
      [discriminate|].
    destruct r as [r|e|]; try discriminate.
    eapply run_loop_unbounded; exact H.
  - intros fuel w w' H.
    apply run_run in H as [(n & m & Hn & _)|(_ & r & H & Hr)];
      [discriminate|].
    destruct r as [r|e|]; try discriminate.
    eapply run_loop_stuck_at_zero_steps; exact H.
Qed.

(** C1, witness: one-step episodes and [num_steps = 2]. *)
Lemma run_terminates_witness :
  exists fuel w',
    run one_step_env idle_actor SpecCounter.counter list_logger tick_clock
        fuel None (Some 2) (start false) = (Done tt, w').
Proof.
  destruct (run_terminates one_step_env idle_actor SpecCounter.counter
              list_logger tick_clock (fun _ => True) None (Some 2))
    with (w := start false) as (fuel & w' & H & _).
  - split; [intros _; discriminate | reflexivity].
  - intros w ec sc _. destruct (one_step_episode ec sc w) as (w' & H).
    exists 1%nat, (ec + 1), (sc + 1), w'.
    split; [exact H|]. split; [exact I|]. intros _. lia.
  - exact I.
  - exists fuel, w'. exact H.
Defined.

(** C7, witness: an episode run with a counter that has a total named
    [episode_length]. *)
Lemma counter_totals_take_precedence_witness :
  exists rec,
    written
      (since colliding
         (snd (run_episode one_step_env idle_actor SpecCounter.counter
                           list_logger tick_clock 1 0 0 colliding)))
    = [rec].
Proof.
  destruct (counter_totals_take_precedence one_step_env idle_actor
              SpecCounter.counter list_logger tick_clock 1 0 0 colliding
              (0 + 1) (0 + 1)
              (snd (run_episode one_step_env idle_actor SpecCounter.counter
                                list_logger tick_clock 1 0 0 colliding)))
    as (n & ret & sps & counts & rec & _ & H & _).
  - apply outcome_and_world. vm_compute. reflexivity.
  - exists rec. exact H.
Defined.

(** C6, witness: the first step of an episode without rewards. *)
Lemma none_reward_raises_witness :
  fst (episode_loop (C:=SpecCounter.state) (L:=list (gmap string pyval))
                    (K:=bool) none_reward_env idle_actor 1
                    (mkTimeStep FIRST PyNone PyNone tt) 0 (PyInt 0)
                    (start false))
  = Raised TypeError.
Proof.
  erewrite (none_reward_raises none_reward_env idle_actor 0
              (mkTimeStep FIRST PyNone PyNone tt) 0 (PyInt 0) (start false));
    cycle 1.
  1-6: reflexivity.
  reflexivity.
Defined.

(** C5, counterexample.  With a clock that gives the same reading twice
    the run raises ZeroDivisionError; with a clock that goes back by one
    second the record holds [steps_per_second = -1.0], which is
    negative; and one step in the smallest positive elapsed time gives an
    infinite value. *)
Lemma steps_per_second_unguarded :
  fst (run one_step_env idle_actor SpecCounter.counter list_logger
           frozen_clock 2 (Some 1) None (start tt))
  = Raised ZeroDivisionError
  /\ steps_per_second 1 PrimFloat.one PrimFloat.zero
     = inr (PrimFloat.opp PrimFloat.one)
  /\ map (fun rec => rec !! "steps_per_second")
         (logger_state
            (snd (run one_step_env idle_actor SpecCounter.counter
                      list_logger tick_clock 2 (Some 1) None (start true))))
     = [Some (PyFloat (PrimFloat.opp PrimFloat.one))]
  /\ PrimFloat.ltb (PrimFloat.opp PrimFloat.one) PrimFloat.zero = true
  /\ steps_per_second 1 PrimFloat.zero 0x1p-1074%float
     = inr PrimFloat.infinity.
Proof. repeat split; vm_compute; reflexivity. Qed.

(** C6, counterexample.  The first step of [none_reward_env] returns a
    MID timestep whose reward is [None]; the run raises TypeError and
    nothing is logged. *)
Lemma none_reward_is_not_zero :
  step_type
    (mkTimeStep MID PyNone (PyFloat PrimFloat.one) tt) = MID
  /\ fst (env_step none_reward_env tt O)
     = inr (mkTimeStep MID PyNone (PyFloat PrimFloat.one) tt)
  /\ fst (run none_reward_env idle_actor SpecCounter.counter list_logger
              tick_clock 3 (Some 1) None (start false))
     = Raised TypeError
  /\ logger_state
       (snd (run none_reward_env idle_actor SpecCounter.counter list_logger
                 tick_clock 3 (Some 1) None (start false))) = [].
Proof. repeat split; vm_compute; reflexivity. Qed.

(** C8, counterexample.  With one-step episodes the second call of
    [select_action] is made in the second episode: [run(num_episodes=2)]
    raises, and the logger has received the record of the first
    episode. *)
Lemma second_select_action_in_second_episode :
  fst (run one_step_env failing_actor SpecCounter.counter list_logger
           tick_clock 3 (Some 2) None (start false))
  = Raised (Failure "select_action")
  /\ map summary
         (logger_state
            (snd (run one_step_env failing_actor SpecCounter.counter
                      list_logger tick_clock 3 (Some 2) None (start false))))
     = [ (Some (PyInt 1), Some (PyFloat PrimFloat.one),
          Some (PyInt 1), Some (PyInt 1)) ].
Proof. split; vm_compute; reflexivity. Qed.

(** With episodes of at least two steps the second call of
    [select_action] is made in the first episode. *)
Lemma failing_actor_first_episode len r fuel ec sc :
  (2 <= len)%nat -> r <> PyNone ->
  exists w',
    run_episode (fixed_env len r) failing_actor SpecCounter.counter
                list_logger tick_clock (S (S fuel)) ec sc (start false)
    = (Raised (Failure "select_action"), w')
    /\ logger_state w' = []
    /\ written (trace w') = [].
Proof.
  intros Hlen Hr. destruct (py_add_0 r Hr) as (v & Hv).
  destruct len as [|[|len]]; [lia|lia|].
  unfold run_episode, start.
  do 3 step idtac.
  erewrite bind_Raised; cycle 1.
  { rewrite episode_loop_S by reflexivity.
    do 4 step idtac. step ltac:(rewrite Hv).
    rewrite episode_loop_S by reflexivity.
    erewrite bind_Raised; [reflexivity|]. call_now idtac. }
  eexists. split; [reflexivity|]. split; reflexivity.
Qed.

(** C8, as the code has it.  When a run stops at a call to the
    environment or the actor that raised, it raises that very exception;
    the calls made are those of completed episodes followed by those of
    the episode that failed, in which nothing was logged, so the logger
    has received one record per completed episode and none after.  When
    [select_action] raises on its second call and the episodes of the
    environment have at least two steps, [run(num_episodes=n)] with
    [n > 0] raises that failure and the logger has received no record. *)
Theorem agent_failure_is_not_logged :
  (forall Obs Act E A C L K (environment : Environment Obs Act E)
          (actor : Actor Obs Act A) (counter : Counter C) (logger : Logger L)
          (clock : Clock K) fuel nE nS (w w' : World Obs Act E A C L K)
          e d ev e',
      run environment actor counter logger clock fuel nE nS w
      = (Raised e, w') ->
      since w w' = d ++ [ev] ->
      agent_raised ev = Some e' ->
      e = e'
      /\ exists pre cur,
          since w w' = pre ++ cur
          /\ complete_episodes pre
          /\ resets cur = 1%nat
          /\ written cur = []
          /\ length (written (since w w')) = resets pre)
  /\ (forall len r fuel n,
         (2 <= len)%nat -> r <> PyNone -> 0 < n ->
         let out :=
           run (fixed_env len r) failing_actor SpecCounter.counter
               list_logger tick_clock (S (S (S fuel))) (Some n) None
               (start false) in
         fst out = Raised (Failure "select_action")
         /\ logger_state (snd out) = []
         /\ written (trace (snd out)) = []).
Proof.
  split.
  - intros Obs Act E A C L K environment actor counter logger clock
           fuel nE nS w w' e d ev e' H Hd Hev.
    eapply agent_failure_propagates; eassumption.
  - intros len r fuel n Hlen Hr Hn.
    destruct (failing_actor_first_episode len r fuel 0 0 Hlen Hr)
      as (w' & H & Hl & Hw).
    assert (Hrun : run (fixed_env len r) failing_actor SpecCounter.counter
                       list_logger tick_clock (S (S (S fuel))) (Some n) None
                       (start false)
                   = (Raised (Failure "select_action"), w')).
    { unfold run. cbn [is_None orb negb].
      erewrite bind_Raised; [reflexivity|].
      cbn [run_loop]. rewrite should_terminate_episodes.
      destruct (0 >=? n) eqn:Hge; [lia|].
      erewrite bind_Raised; [reflexivity|exact H]. }
    rewrite Hrun. simpl. auto.
Qed.

(** C8, witness: two-step episodes and [num_episodes = 2]. *)
Lemma agent_failure_is_not_logged_witness :
  logger_state
    (snd (run (fixed_env 2 (PyFloat PrimFloat.one)) failing_actor
              SpecCounter.counter list_logger tick_clock 3 (Some 2) None
              (start false))) = [].
Proof.
  destruct agent_failure_is_not_logged as [_ H].
  apply (H 2%nat (PyFloat PrimFloat.one) O 2); [lia|discriminate|lia].
Defined.

Local Abbreviation three_run :=
  (run one_step_env idle_actor SpecCounter.counter list_logger tick_clock
       4 (Some 3) None (start false)).
Local Abbreviation one_episode :=
  (run_episode one_step_env idle_actor SpecCounter.counter list_logger
               tick_clock 1 0 0 (start false)).



Local Abbreviation colliding_run :=
  (run one_step_env idle_actor SpecCounter.counter list_logger tick_clock
       2 (Some 1) None colliding).
Local Abbreviation colliding_run_too :=
  (run one_step_env idle_actor SpecCounter.counter list_logger tick_clock
       2 (Some 1) None colliding_too).
Local Abbreviation first_timestep := (mkTimeStep FIRST PyNone PyNone tt).
Local Abbreviation one_loop :=
  (episode_loop one_step_env idle_actor 1 first_timestep 0 (PyInt 0)
     (mkWorld O O (counter_state (start false))
        (logger_state (start false)) true
        (trace (start false)
         ++ [EvTime PrimFloat.zero; EvReset (inr first_timestep);
             EvObserveFirst first_timestep (inr tt)]))).
Local Abbreviation terminal_episode_run :=
  (run_episode terminal_env idle_actor SpecCounter.counter list_logger
               tick_clock 1 0 0 (start false)).

Local Abbreviation counted n :=
  (foldl SpecCounter.add_delta SpecCounter.fresh
         [("episodes"%string, 1); ("steps"%string, n)]).

(** C3, counterexample.  With a counter that has a total named
    [episode_length], a run of one episode of one step logs 7 under that
    name. *)
Lemma logged_length_is_the_counter_total :
  fst colliding_run = Done tt
  /\ step_calls (since colliding (snd colliding_run)) = 1%nat
  /\ map (fun rec => rec !! "episode_length")
         (logger_state (snd colliding_run))
     = [Some (PyInt 7)].
Proof. repeat split; vm_compute; reflexivity. Qed.

(** C3, witness: the run of three one-step episodes. *)
Lemma run_call_order_witness :
  exists eps rest,
    since (start false) (snd three_run) = concat eps ++ rest.
Proof.
  destruct (run_call_order one_step_env idle_actor SpecCounter.counter
              list_logger tick_clock 4 (Some 3) None (start false)
              (Done tt) (snd three_run))
    as (eps & rest & p & H & _).
  - apply outcome_and_world. vm_compute. reflexivity.
  - exists eps, rest. exact H.
Defined.

(** C5, witness: a one-step episode timed by the alternating clock. *)
Lemma steps_per_second_needs_elapsed_time_witness :
  1 = Z.of_nat (step_calls (since (start false) (snd one_loop))).
Proof.
  destruct (steps_per_second_needs_elapsed_time one_step_env idle_actor
               SpecCounter.counter list_logger tick_clock 1 0 0
               (start false) PrimFloat.zero true first_timestep O O
               1 (PyFloat PrimFloat.one) (snd one_loop)
               (SpecCounter.totals (counted 1)) (counted 1)
               PrimFloat.one false PrimFloat.one) as [H _].
  - reflexivity.
  - reflexivity.
  - reflexivity.
  - apply outcome_and_world. vm_compute. reflexivity.
  - reflexivity.
  - reflexivity.
  - vm_compute. reflexivity.
  - exact H.
Defined.

(** C10, counterexample.  With an environment that resets to LAST and a
    clock that does not advance, the run raises ZeroDivisionError and the
    logger is given nothing; with a counter that has a total named
    [episode_length], the record holds 7 under that name, not 0. *)
Lemma reset_at_last_may_log_nothing :
  fst (run terminal_env idle_actor SpecCounter.counter list_logger
           frozen_clock 2 (Some 1) None (start tt))
  = Raised ZeroDivisionError
  /\ logger_state
       (snd (run terminal_env idle_actor SpecCounter.counter list_logger
                 frozen_clock 2 (Some 1) None (start tt))) = []
  /\ written
       (trace
          (snd (run terminal_env idle_actor SpecCounter.counter
                    list_logger frozen_clock 2 (Some 1) None (start tt))))
     = []
  /\ map (fun rec => rec !! "episode_length")
         (logger_state
            (snd (run terminal_env idle_actor SpecCounter.counter
                      list_logger tick_clock 2 (Some 1) None colliding)))
     = [Some (PyInt 7)].
Proof. repeat split; vm_compute; reflexivity. Qed.

(** C10, witness: the environment that resets to LAST, timed by the
    alternating clock. *)
Lemma reset_at_last_is_counted_witness :
  exists rec,
    fst terminal_episode_run
    = match fst (write list_logger rec []) with
      | inl e => Raised e
      | inr _ => Done (0 + 1, 0 + 0)
      end.
Proof.
  destruct (reset_at_last_is_counted terminal_env idle_actor
               SpecCounter.counter list_logger tick_clock 1 0 0
               (start false) (mkTimeStep LAST PyNone PyNone tt) O O
               (SpecCounter.totals (counted 0)) (counted 0)
               PrimFloat.zero true PrimFloat.one false)
    as [_ H].
  - reflexivity.
  - reflexivity.
  - reflexivity.
  - reflexivity.
  - reflexivity.
  - reflexivity.
  - destruct H as (rec & Hrun & _); [vm_compute; reflexivity|].
    exists rec. rewrite Hrun. reflexivity.
Defined.

(** C9, as the code has it.  Two episodes run from worlds that agree on
    the states of the environment and of the actor, whatever the states
    of the counter, the logger and the clock and whatever the fuel, make
    the same number of steps, call the counter with the same arguments,
    and log records in which [episode_length] is that number and
    [episode_return] the same return, each unless the totals its counter
    returned have a key of that name.  With the counter modelled above, a
    completed episode adds 1 to the total [episodes] and the number of
    its steps to the total [steps], leaves the other totals as they
    were, and logs these two totals. *)
Theorem episodes_are_reproducible_and_counted :
  (forall Obs Act E A C L K (environment : Environment Obs Act E)
          (actor : Actor Obs Act A) (counter : Counter C) (logger : Logger L)
          (clock : Clock K) f1 f2 ec1 sc1 ec2 sc2
          (w1 w2 w1' w2' : World Obs Act E A C L K) ec1' sc1' ec2' sc2',
      env_state w1 = env_state w2 ->
      actor_state w1 = actor_state w2 ->
      run_episode environment actor counter logger clock f1 ec1 sc1 w1
      = (Done (ec1', sc1'), w1') ->
      run_episode environment actor counter logger clock f2 ec2 sc2 w2
      = (Done (ec2', sc2'), w2') ->
      exists n ret c1 c2 rec1 rec2,
        written (since w1 w1') = [rec1]
        /\ written (since w2 w2') = [rec2]
        /\ n = Z.of_nat (step_calls (since w1 w1'))
        /\ n = Z.of_nat (step_calls (since w2 w2'))
        /\ increment counter [("episodes"%string, 1); ("steps"%string, n)]
                     (counter_state w1) = (inr c1, counter_state w1')
        /\ increment counter [("episodes"%string, 1); ("steps"%string, n)]
                     (counter_state w2) = (inr c2, counter_state w2')
        /\ (c1 !! "episode_length" = None ->
            rec1 !! "episode_length" = Some (PyInt n))
        /\ (c2 !! "episode_length" = None ->
            rec2 !! "episode_length" = Some (PyInt n))
        /\ (c1 !! "episode_return" = None ->
            rec1 !! "episode_return" = Some ret)
        /\ (c2 !! "episode_return" = None ->
            rec2 !! "episode_return" = Some ret))
  /\ (forall Obs Act E A L K (environment : Environment Obs Act E)
             (actor : Actor Obs Act A) (logger : Logger L) (clock : Clock K)
             fuel ec sc (w w' : World Obs Act E A SpecCounter.state L K)
             ec' sc',
         run_episode environment actor SpecCounter.counter logger clock
                     fuel ec sc w = (Done (ec', sc'), w') ->
         SpecCounter.total (counter_state w') "episodes"
         = SpecCounter.total (counter_state w) "episodes" + 1
         /\ SpecCounter.total (counter_state w') "steps"
            = SpecCounter.total (counter_state w) "steps"
              + Z.of_nat (step_calls (since w w'))
         /\ (forall k, k <> "episodes"%string -> k <> "steps"%string ->
                       counter_state w' !! k = counter_state w !! k)
         /\ exists rec,
             written (since w w') = [rec]
             /\ rec !! "episodes"
                = Some (PyInt (SpecCounter.total (counter_state w')
                                                 "episodes"))
             /\ rec !! "steps"
                = Some (PyInt (SpecCounter.total (counter_state w')
                                                 "steps"))).
Proof.
  split.
  - intros Obs Act E A C L K environment actor counter logger clock
           f1 f2 ec1 sc1 ec2 sc2 w1 w2 w1' w2' ec1' sc1' ec2' sc2'
           He Ha H1 H2.
    apply (run_episode_more_fuel _ _ _ _ _ f1 f2) in H1; [|discriminate].
    apply (run_episode_more_fuel _ _ _ _ _ f2 f1) in H2; [|discriminate].
    rewrite (Nat.add_comm f2 f1) in H2.
    destruct (run_episode_agree _ _ _ _ _ _ _ _ _ _ _ _ _ _ _ _ _ _
                He Ha H1 H2)
      as (n & ret & sps1 & sps2 & c1 & c2 & Hw1 & Hw2 & Hn1 & Hn2 & _ & _
          & Hi1 & Hi2).
    exists n, ret, c1, c2, (build_result n ret sps1 c1),
      (build_result n ret sps2 c2).
    destruct (computed_fields_lookup n ret sps1) as (Ha1 & Hb1 & _).
    destruct (computed_fields_lookup n ret sps2) as (Ha2 & Hb2 & _).
    split; [exact Hw1|]. split; [exact Hw2|].
    split; [exact Hn1|]. split; [exact Hn2|].
    split; [exact Hi1|]. split; [exact Hi2|].
    repeat split; intros Hnone;
      rewrite (build_result_computed _ _ _ _ _ Hnone); assumption.
  - intros Obs Act E A L K environment actor logger clock
           fuel ec sc w w' ec' sc' H.
    apply run_episode_counts_once in H
      as (n & ret & sps & counts & -> & _ & Hinc & Hw & _).
    simpl in Hinc.
    destruct (increment_totals (counter_state w)
                (Z.of_nat (step_calls (since w w'))))
      as (Hc & He & Hs & Ho).
    rewrite Hinc in Hc, He, Hs, Ho. simpl in Hc, He, Hs, Ho.
    injection Hc as ->.
    unfold SpecCounter.total at 1 3. rewrite He, Hs. simpl.
    split; [reflexivity|]. split; [reflexivity|]. split; [exact Ho|].
    eexists. split; [exact Hw|].
    split; apply build_result_counts; eapply totals_lookup; eassumption.
Qed.

(** C9, counterexample.  Two runs of one episode from the same states of
    the environment and the actor, with counters whose totals named
    [episode_length] are 7 and 9: the records hold 7 and 9. *)
Lemma colliding_totals_differ :
  env_state colliding = env_state colliding_too
  /\ actor_state colliding = actor_state colliding_too
  /\ fst colliding_run = Done tt
  /\ fst colliding_run_too = Done tt
  /\ map (fun rec => rec !! "episode_length")
         (logger_state (snd colliding_run))
     = [Some (PyInt 7)]
  /\ map (fun rec => rec !! "episode_length")
         (logger_state (snd colliding_run_too))
     = [Some (PyInt 9)].
Proof. repeat split; vm_compute; reflexivity. Qed.

(** C9, witness: one episode of the one-step environment from a fresh
    counter. *)
Lemma episodes_are_reproducible_and_counted_witness :
  SpecCounter.total (counter_state (snd one_episode)) "episodes"
  = SpecCounter.total (counter_state (start false)) "episodes" + 1.
Proof.
  destruct episodes_are_reproducible_and_counted as [_ H].
  destruct (H _ _ _ _ _ _ one_step_env idle_actor list_logger tick_clock
              1%nat 0 0 (start false) (snd one_episode) (0 + 1) (0 + 1))
    as (He & _).
  - apply outcome_and_world. vm_compute. reflexivity.
  - exact He.
Defined.

End Scenarios.

(** ** Instances of the properties above *)

Section Instances.

Import Scenario.

Local Abbreviation one_episode :=
  (run_episode one_step_env idle_actor SpecCounter.counter list_logger
               tick_clock 1 0 0 (start false)).
Local Abbreviation three_run :=
  (run one_step_env idle_actor SpecCounter.counter list_logger tick_clock
       4 (Some 3) None (start false)).
Local Abbreviation failing_run :=
  (run (fixed_env 2 (PyFloat PrimFloat.one)) failing_actor
       SpecCounter.counter list_logger tick_clock 3 (Some 2) None
       (start false)).
Local Abbreviation frozen_run :=
  (run one_step_env idle_actor SpecCounter.counter list_logger frozen_clock
       2 (Some 1) None (start tt)).
Local Abbreviation int_episode :=
  (run_episode (fixed_env 2 (PyInt 3)) idle_actor SpecCounter.counter
               list_logger tick_clock 2 0 0 (start false)).
Local Abbreviation first_steps :=
  (episode_loop (C:=SpecCounter.state) (L:=list (gmap string pyval))
                (K:=bool) one_step_env idle_actor 1
                (mkTimeStep FIRST PyNone PyNone tt) 0 (PyInt 0)
                (start false)).

(** Witness: [num_episodes = 0]. *)
Lemma reached_bound_makes_no_call_witness :
  run one_step_env idle_actor SpecCounter.counter list_logger tick_clock
      5 (Some 0) None (start false) = (Done tt, start false).
Proof.
  destruct (reached_bound_makes_no_call one_step_env idle_actor
              SpecCounter.counter list_logger tick_clock 5 0 (start false))
    as [H _]; [lia|exact H].
Defined.

(** Witness: the run of three one-step episodes. *)
Lemma episode_bound_is_exact_witness :
  length (written (since (start false) (snd three_run))) = Z.to_nat 3.
Proof.
  destruct (episode_bound_is_exact one_step_env idle_actor
              SpecCounter.counter list_logger tick_clock 4 3 (start false)
              (snd three_run)) as [H _].
  - apply outcome_and_world. vm_compute. reflexivity.
  - exact H.
Defined.

(** Witness: two-step episodes and an actor whose second
    [select_action] raises. *)
Lemma failed_episode_is_not_counted_witness :
  length (increments (since (start false) (snd failing_run)))
  = length (written (since (start false) (snd failing_run))).
Proof.
  destruct (failed_episode_is_not_counted
              (fixed_env 2 (PyFloat PrimFloat.one)) failing_actor
              SpecCounter.counter list_logger tick_clock 3 (Some 2) None
              (start false) (snd failing_run) (Failure "select_action")
              (removelast (since (start false) (snd failing_run)))
              (EvSelectAction tt (inl (Failure "select_action")))
              (Failure "select_action")) as (_ & H & _).
  - apply outcome_and_world. vm_compute. reflexivity.
  - vm_compute. reflexivity.
  - reflexivity.
  - exact H.
Defined.

(** Witness: one-step episodes timed by a clock that does not
    advance. *)
Lemma failed_division_is_counted_witness :
  length (increments (since (start tt) (snd frozen_run)))
  = S (length (written (since (start tt) (snd frozen_run)))).
Proof.
  destruct (failed_division_is_counted one_step_env idle_actor
              SpecCounter.counter list_logger frozen_clock 2 (Some 1) None
              (start tt) (snd frozen_run) ZeroDivisionError
              (removelast (since (start tt) (snd frozen_run)))
              PrimFloat.one) as (_ & H).
  - apply outcome_and_world. vm_compute. reflexivity.
  - vm_compute. reflexivity.
  - exact H.
Defined.

(** Witness: the same clock and [num_episodes = 0]. *)
Lemma frozen_clock_completes_no_episode_witness :
  should_terminate (Some 0) None 0 0 = true.
Proof.
  destruct (frozen_clock_completes_no_episode one_step_env idle_actor
              SpecCounter.counter list_logger frozen_clock PrimFloat.one
              1 (Some 0) None (start tt) (start tt)) as [_ H].
  - intros k. reflexivity.
  - vm_compute. reflexivity.
  - reflexivity.
  - exact H.
Defined.

(** Witness: a two-step episode with reward 3 at each step. *)
Lemma integer_rewards_sum_exactly_witness :
  exists t0 ts0 steps ret counts t1 sps,
    since (start false) (snd int_episode)
    = episode_events t0 ts0 steps ret counts t1 sps.
Proof.
  destruct (integer_rewards_sum_exactly (fixed_env 2 (PyInt 3)) idle_actor
              SpecCounter.counter list_logger tick_clock 2 0 0
              (start false) (snd int_episode) (0 + 1) (0 + 2))
    as (t0 & ts0 & steps & ret & counts & t1 & sps & H & _).
  - apply outcome_and_world. vm_compute. reflexivity.
  - exists t0, ts0, steps, ret, counts, t1, sps. exact H.
Defined.

(** Witness: one episode from a fresh counter. *)
Lemma record_without_collision_witness :
  exists rec, written (since (start false) (snd one_episode)) = [rec].
Proof.
  destruct (record_without_collision one_step_env idle_actor
              SpecCounter.counter list_logger tick_clock 1 0 0
              (start false) (snd one_episode) (0 + 1) (0 + 1))
    as (t0 & ts0 & steps & ret & counts & t1 & sps & rec & _ & H & _).
  - apply outcome_and_world. vm_compute. reflexivity.
  - exists rec. exact H.
Defined.

(** Witness: the inner loop of a one-step episode. *)
Lemma inner_loop_calls_only_the_agent_witness :
  counter_state (snd first_steps) = counter_state (start false).
Proof.
  destruct (inner_loop_calls_only_the_agent one_step_env idle_actor 1
              (mkTimeStep FIRST PyNone PyNone tt) 0 (PyInt 0)
              (start false) (snd first_steps) (fst first_steps))
    as (H & _).
  - apply surjective_pairing.
  - exact H.
Defined.

(** Witness: the run of three one-step episodes. *)
Lemma counter_totals_follow_the_run_witness :
  SpecCounter.total (counter_state (snd three_run)) "episodes"
  = SpecCounter.total (counter_state (start false)) "episodes"
    + Z.of_nat (length (written (since (start false) (snd three_run)))).
Proof.
  destruct (counter_totals_follow_the_run one_step_env idle_actor
              list_logger tick_clock 4 (Some 3) None (start false)
              (snd three_run)) as (H & _).
  - apply outcome_and_world. vm_compute. reflexivity.
  - exact H.
Defined.

End Instances.
